(** * PUBG-BOT: the interaction response state machine

    A shallow embedding of [module/interaction.py]: the payload builder
    [_get_payload], the operations [defer], [send], [edit], [delete] of
    [InteractionContext], the construction of [SlashContext] with its
    option parsing, and [ComponentsContext] with [defer_update] and
    [update]; and of [utils/perm.py]: the permission levels of [check_perm]
    and the check [permission].

    Python dictionaries are finite maps ([gmap]), JSON values are a small
    tree type, and the asynchronous operations are functions in a state and
    exception monad over a [World]: the two flags of the context, the log
    of outbound HTTP calls and the log of [close] calls on attachments. *)

From Stdlib Require Import ZArith List Lia.
From stdpp Require Import gmap strings list fin_maps pretty.

Import ListNotations.
Set Warnings "-register-all".
Open Scope string_scope.
Open Scope Z_scope.
Open Scope list_scope.

(** ** Python values *)

(** Values decoded from JSON (and the dictionaries sent back).  A float is
    kept as the bit pattern of its IEEE-754 double. *)
Inductive json : Type :=
| JNull
| JBool (b : bool)
| JInt (z : Z)
| JFloat (bits : Z)
| JStr (s : string)
| JList (l : list json)
| JDict (kvs : list (string * json)).

(** Python truthiness, as used by [if x:] and [bool(x)]. *)
Definition truthy (v : json) : bool :=
  match v with
  | JNull => false
  | JBool b => b
  | JInt z => negb (z =? 0)
  | JFloat bits => negb (Z.land bits (Z.ones 63) =? 0)
  | JStr s => negb (String.eqb s "")
  | JList l => match l with [] => false | _ => true end
  | JDict kvs => match kvs with [] => false | _ => true end
  end.

(** [x is not None] on an optional argument. *)
Definition is_not_None {A} (o : option A) : bool :=
  match o with Some _ => true | None => false end.

(** ** Collaborators of the context *)

(** [discord.Embed]: only [to_dict] is used. *)
Record Embed := { embed_to_dict : json }.

(** [discord.File]: an open stream with a file name; [file_id] stands for the
    identity of the Python object. *)
Record File := { file_id : nat; filename : string }.

(** Interactive components: an [ActionRow] is serialised with [to_all_dict],
    a [Button] or [Selection] with [to_dict]. *)
Inductive Component :=
| ActionRow (all_dict : json)
| Button (dict : json)
| Selection (dict : json).

Definition component_to_dict (c : Component) : json :=
  match c with
  | ActionRow d => d
  | Button d => d
  | Selection d => d
  end.

(** The [content] argument: anything [str] accepts; strings and integers are
    what the bot passes. *)
Inductive Content :=
| CStr (s : string)
| CInt (z : Z).

Definition py_str (c : Content) : string :=
  match c with
  | CStr s => s
  | CInt z => pretty z
  end.

(** ** The payload builder *)

Module Payload.

(** [InteractionContext._get_payload]: each field is stored only when its
    argument is truthy. *)
Definition _get_payload (content : json) (tts : bool) (embed : json)
    (hidden : bool) (allowed_mentions : json) (components : json)
  : gmap string json :=
  let payload : gmap string json := ∅ in
  let payload := if truthy content then <["content" := content]> payload else payload in
  let payload := if tts then <["tts" := JBool tts]> payload else payload in
  let payload := if truthy embed then <["embeds" := embed]> payload else payload in
  let payload :=
    if truthy allowed_mentions
    then <["allowed_mentions" := allowed_mentions]> payload else payload in
  let payload := if hidden then <["flags" := JInt (Z.shiftl 1 6)]> payload else payload in
  let payload := if truthy components then <["components" := components]> payload else payload in
  payload.

End Payload.

(** ** Outbound calls *)

Module Http.

(** The [message_id] argument of [edit] and [delete]: the string
    ["@original"] by default, otherwise the id of a follow-up message. *)
Inductive MessageId :=
| MidStr (s : string)
| MidInt (z : Z).

(** [message_id == "@original"] *)
Definition is_original (m : MessageId) : bool :=
  match m with
  | MidStr s => String.eqb s "@original"
  | MidInt _ => false
  end.

(** One part of a multipart body. *)
Inductive FormPart :=
| PartJson (payload_json : gmap string json)
| PartFile (index : nat) (name : string) (f : File).

Definition Form := list FormPart.

(** Modelled from the spec: [module.message._files_to_form] is not among
    the sources.  It combines the JSON payload, as one part, with each
    attachment as a named binary part, in input order and under the
    attachment's file name. *)
Definition _files_to_form (files : list File) (payload : gmap string json) : Form :=
  PartJson payload :: imap (fun i f => PartFile i (filename f) f) files.

(** The methods of [HttpClient] the context calls, with their arguments.
    [files] is passed on as the Python variable holds it: [None], or a
    list. *)
Inductive Call :=
| post_defer_response (payload : gmap string json)
| post_initial_response (payload : gmap string json)
| get_initial_response
| edit_initial_response
    (payload : gmap string json) (form : option Form) (files : option (list File))
| post_followup
    (payload : gmap string json) (form : option Form) (files : option (list File))
| edit_followup (message_id : MessageId)
    (payload : gmap string json) (form : option Form) (files : option (list File))
| delete_initial_response
| delete_followup (message_id : MessageId).

(** The transport behind [HttpClient]: given the calls made so far and the
    call being made, the parsed response, or [None] when the call raises. *)
Definition Transport := list Call → Call → option json.

Definition is_defer (c : Call) : bool :=
  match c with post_defer_response _ => true | _ => false end.

End Http.
Import Http.

(** ** The context and its world *)

Record Channel := { channel_id : Z }.
Record Role := { role_id : Z }.
Record Member := { member_id : Z }.
Record User := { user_id : Z }.

(** [discord.Guild], through the three cache lookups the context uses. *)
Record Guild := {
  guild_id : Z;
  get_member : json → option Member;
  get_channel : json → option Channel;
  get_role : json → option Role
}.

(** [discord.Client] together with its connection state. *)
Record Client := {
  get_guild : Z → option Guild;
  get_user : json → option User;
  state_get_channel : Z → option Channel
}.

(** The invoker: [discord.Member] inside a guild, [discord.User] otherwise. *)
Inductive Author :=
| AuthorMember (data : json) (g : Guild)
| AuthorUser (data : json).

(** The attributes of [InteractionContext] the operations read or write. *)
Record Context := {
  guild : option Guild;
  channel : option Channel;
  author : Author;
  deferred : bool;
  responded : bool
}.

Definition with_deferred (b : bool) (c : Context) : Context :=
  {| guild := guild c; channel := channel c; author := author c;
     deferred := b; responded := responded c |}.

Definition with_responded (b : bool) (c : Context) : Context :=
  {| guild := guild c; channel := channel c; author := author c;
     deferred := deferred c; responded := b |}.

(** What an operation can observe and change: the context, the outbound
    calls issued so far (oldest first) and the attachments closed so far. *)
Record World := {
  self : Context;
  calls : list Call;
  closed : list File
}.

Inductive Exn :=
| InvalidArgument
| HTTPException (c : Call)
| AttributeError
| TypeError
| ValueError
| KeyError (key : string)
| OverflowError.

(** [module.message.Message], built from the response data. *)
Record Message := { message_data : json }.

(** [discord.AllowedMentions] *)
Record AllowedMentions := { mentions_to_dict : json }.

(** ** A state and exception monad for the coroutines *)

Module Co.

(** A coroutine of the context: it runs on a world and ends with a value or
    with a raised exception; what it changed before raising stays changed. *)
Definition M (A : Type) : Type := World → (Exn + A) * World.

Definition ret {A} (a : A) : M A := fun w => (inr a, w).

Definition raise {A} (e : Exn) : M A := fun w => (inl e, w).

Definition bind {A B} (m : M A) (k : A → M B) : M B :=
  fun w =>
    match m w with
    | (inr a, w') => k a w'
    | (inl e, w') => (inl e, w')
    end.

Definition get_self : M Context := fun w => (inr (self w), w).

Definition set_self (f : Context → Context) : M unit :=
  fun w => (inr tt, {| self := f (self w); calls := calls w; closed := closed w |}).

(** [f.close()] *)
Definition close (f : File) : M unit :=
  fun w => (inr tt, {| self := self w; calls := calls w; closed := closed w ++ [f] |}).

(** [for x in l: body x] *)
Fixpoint for_each {A} (l : list A) (body : A → M unit) : M unit :=
  match l with
  | [] => ret tt
  | x :: l' => bind (body x) (fun _ => for_each l' body)
  end.

(** [if cond: body] *)
Definition when (cond : bool) (body : M unit) : M unit :=
  if cond then body else ret tt.

End Co.
Import Co.

#[global] Instance M_ret : MRet M := @Co.ret.
#[global] Instance M_bind : MBind M := fun A B k m => Co.bind m k.

(** Truthiness of the [files] variable: [None] and the empty list are falsy. *)
Definition files_truthy (files : option (list File)) : bool :=
  match files with
  | Some (_ :: _) => true
  | _ => false
  end.

(** The list the [for] loops over [files] run through. *)
Definition files_list (files : option (list File)) : list File :=
  match files with Some l => l | None => [] end.

(** The keyword arguments of [send]. *)
Record SendArgs := {
  content : option Content;
  tts : bool;
  embed : option Embed;
  embeds : option (list Embed);
  file : option File;
  files : option (list File);
  hidden : bool;
  allowed_mentions : option AllowedMentions;
  components : option (list Component)
}.

(** The arguments of [edit] after [message_id]. *)
Record EditArgs := {
  e_content : option Content;
  e_embed : option Embed;
  e_embeds : option (list Embed);
  e_file : option File;
  e_files : option (list File);
  e_allowed_mentions : option AllowedMentions;
  e_components : option (list Component)
}.

(** One entry of the [options] array of a slash-command payload. *)
Record RawOption := {
  option_name : string;
  option_value : json;
  option_type : Z
}.

(** The inbound interaction payload, through the fields the constructors
    read.  [None] is an absent key; [member] and [user] are handed on
    undecoded; [data_options] is [data.get("options", [])]. *)
Record InteractionPayload := {
  payload_id : option Z;
  payload_guild_id : option Z;
  payload_channel_id : option Z;
  payload_member : json;
  payload_user : json;
  data_name : json;
  data_options : list RawOption
}.

(** The parts of discord.py the base constructor runs and that can raise:
    the constructors of [discord.Member] and [discord.User], which reject
    missing or incomplete data, and [discord.utils.snowflake_time], applied
    to the id of the interaction ([None] when the payload has none).  Each
    answers [None] when it goes through and the exception it raises
    otherwise. *)
Record Discord := {
  Member_init : json → Guild → option Exn;
  User_init : json → option Exn;
  snowflake_time : option Z → option Exn
}.

Module InteractionContext.

(** The guild of the context: looked up when the payload carries a guild id,
    [None] otherwise (and also when the lookup finds nothing). *)
Definition resolve_guild (payload : InteractionPayload) (client : Client) : option Guild :=
  match payload_guild_id payload with
  | Some gid => get_guild client gid
  | None => None
  end.

(** The invoker: a member of the guild when the guild was found, built from
    the [member] of the payload, a bare user otherwise, built from its
    [user]. *)
Definition make_author (lib : Discord) (guild : option Guild)
    (payload : InteractionPayload) : Exn + Author :=
  match guild with
  | Some g =>
      match Member_init lib (payload_member payload) g with
      | Some e => inl e
      | None => inr (AuthorMember (payload_member payload) g)
      end
  | None =>
      match User_init lib (payload_user payload) with
      | Some e => inl e
      | None => inr (AuthorUser (payload_user payload))
      end
  end.

(** [InteractionContext.__init__], in the order of the source: the guild,
    the channel, where [int(self.channel_id)] raises on a payload without
    channel id, the author, and [created_at] from the id. *)
Definition __init__ (lib : Discord) (payload : InteractionPayload) (client : Client)
  : Exn + Context :=
  let guild := resolve_guild payload client in
  match payload_channel_id payload with
  | None => inl TypeError
  | Some cid =>
      let channel := state_get_channel client cid in
      match make_author lib guild payload with
      | inl e => inl e
      | inr author =>
          match snowflake_time lib (payload_id payload) with
          | Some e => inl e
          | None =>
              inr {| guild := guild; channel := channel; author := author;
                     deferred := false; responded := false |}
          end
      end
  end.

Section Operations.

(** The transport behind [self.http]. *)
Variable transport : Transport.

(** [module.message._allowed_mentions], already applied to the connection
    state of the context: the policy resolver is an external collaborator. *)
Variable _allowed_mentions : option AllowedMentions → json.

(** [await self.http.<call>]: the call is logged, then it returns the
    response or raises. *)
Definition request (c : Call) : M json :=
  fun w =>
    let w' := {| self := self w; calls := calls w ++ [c]; closed := closed w |} in
    match transport (calls w) c with
    | Some resp => (inr resp, w')
    | None => (inl (HTTPException c), w')
    end.

Definition defer (hidden : bool) : M unit :=
  let base : gmap string json := {[ "type" := JInt 5 ]} in
  let base := if hidden then <["data" := JDict [("flags", JInt 64)]]> base else base in
  request (post_defer_response base);;
  set_self (with_deferred true).

(** The normalisation of the arguments shared by [send] and [edit]. *)
Definition str_content (content : option Content) : json :=
  match content with Some c => JStr (py_str c) | None => JNull end.

Definition embeds_to_dicts (embed : option Embed) (embeds : option (list Embed)) : json :=
  let embeds := match embed with Some e => Some [e] | None => embeds end in
  match embeds with
  | Some l => JList (map embed_to_dict l)
  | None => JNull
  end.

Definition file_to_files (file : option File) (files : option (list File))
  : option (list File) :=
  match file with Some f => Some [f] | None => files end.

Definition components_to_dicts (components : option (list Component)) : json :=
  match components with
  | Some l => JList (map component_to_dict l)
  | None => JNull
  end.

Definition make_form (files : option (list File)) (payload : gmap string json)
  : option Form :=
  if files_truthy files then Some (_files_to_form (files_list files) payload) else None.

Definition send_payload (a : SendArgs) : gmap string json :=
  Payload._get_payload
    (str_content (content a)) (tts a) (embeds_to_dicts (embed a) (embeds a))
    (hidden a) (_allowed_mentions (allowed_mentions a))
    (components_to_dicts (components a)).

Definition send (a : SendArgs) : M Message :=
  if is_not_None (file a) && is_not_None (files a) then raise InvalidArgument else
  if is_not_None (embed a) && is_not_None (embeds a) then raise InvalidArgument else
  let files := file_to_files (file a) (files a) in
  let payload := send_payload a in
  let form := make_form files payload in
  ctx ← get_self;
  resp ← (if negb (responded ctx) then
            when (files_truthy files) (defer (hidden a));;
            ctx ← get_self;
            resp ← (if deferred ctx
                    then request (edit_initial_response payload form files)
                    else request (post_initial_response payload);;
                         request get_initial_response);
            set_self (with_responded true);;
            mret resp
          else request (post_followup payload form files));
  let msg := {| message_data := resp |} in
  when (files_truthy files) (for_each (files_list files) close);;
  mret msg.

Definition edit_payload (a : EditArgs) : gmap string json :=
  Payload._get_payload
    (str_content (e_content a)) false (embeds_to_dicts (e_embed a) (e_embeds a))
    false (_allowed_mentions (e_allowed_mentions a))
    (components_to_dicts (e_components a)).

Definition edit (message_id : MessageId) (a : EditArgs) : M Message :=
  if is_not_None (e_file a) && is_not_None (e_files a) then raise InvalidArgument else
  if is_not_None (e_embed a) && is_not_None (e_embeds a) then raise InvalidArgument else
  let files := file_to_files (e_file a) (e_files a) in
  let payload := edit_payload a in
  let form := make_form files payload in
  resp ← (if is_original message_id
          then request (edit_initial_response payload form files)
          else request (edit_followup message_id payload form files));
  let msg := {| message_data := resp |} in
  when (files_truthy files) (for_each (files_list files) close);;
  mret msg.

Definition delete (message_id : MessageId) : M unit :=
  (if is_original message_id
   then request delete_initial_response
   else request (delete_followup message_id));;
  mret tt.

End Operations.
End InteractionContext.

(** ** The slash-command context *)

(** A typed slot of [SlashContext.options]. *)
Inductive OptionValue :=
| OValue (v : json)
| OChannel (c : option Channel)
| ORole (r : option Role).

(** The [member] attribute, set by an option of user type. *)
Inductive Mentioned :=
| MentionedMember (m : option Member)
| MentionedUser (u : option User).

(** [SlashContext]: the base context, the command name, the options mapping
    and the [member] attribute ([None] while it is not set). *)
Record SlashContext := {
  base : Context;
  name : json;
  options : gmap string OptionValue;
  member : option Mentioned
}.

Module Slash.
Section Parse.

(** The builtin [float]: the bit pattern of the double it returns, or the
    exception it raises. *)
Variable py_float : json → Exn + Z.

Variable client : Client.

(** [self.guild] *)
Variable guild : option Guild.

(** One round of the loop over the options: the branch taken depends on the
    declared option type. *)
Definition set_option (o : RawOption)
    (st : gmap string OptionValue * option Mentioned)
  : Exn + (gmap string OptionValue * option Mentioned) :=
  let key := option_name o in
  let value := option_value o in
  let option_type := option_type o in
  let '(options, member) := st in
  if option_type =? 3 then inr (<[key := OValue value]> options, member)
  else if option_type =? 4 then inr (<[key := OValue value]> options, member)
  else if option_type =? 5 then
    inr (<[key := OValue (JBool (truthy value))]> options, member)
  else if option_type =? 6 then
    match guild with
    | Some g => inr (options, Some (MentionedMember (get_member g value)))
    | None => inr (options, Some (MentionedUser (get_user client value)))
    end
  else if (option_type =? 7) && is_not_None guild then
    match guild with
    | Some g => inr (<[key := OChannel (get_channel g value)]> options, member)
    | None => inl AttributeError
    end
  else if option_type =? 8 then
    match guild with
    | Some g => inr (<[key := ORole (get_role g value)]> options, member)
    | None => inl AttributeError
    end
  else if option_type =? 10 then
    match py_float value with
    | inr bits => inr (<[key := OValue (JFloat bits)]> options, member)
    | inl e => inl e
    end
  else inr (<[key := OValue value]> options, member).

(** [for option in data.get("options", []): ...] *)
Fixpoint parse_options (opts : list RawOption)
    (st : gmap string OptionValue * option Mentioned)
  : Exn + (gmap string OptionValue * option Mentioned) :=
  match opts with
  | [] => inr st
  | o :: rest =>
      match set_option o st with
      | inr st' => parse_options rest st'
      | inl e => inl e
      end
  end.

End Parse.

(** [SlashContext.__init__] *)
Definition __init__ (py_float : json → Exn + Z) (lib : Discord)
    (payload : InteractionPayload) (client : Client) : Exn + SlashContext :=
  match InteractionContext.__init__ lib payload client with
  | inl e => inl e
  | inr ctx =>
      match parse_options py_float client (guild ctx) (data_options payload) (∅, None) with
      | inl e => inl e
      | inr (options, member) =>
          inr {| base := ctx; name := data_name payload;
                 options := options; member := member |}
      end
  end.

End Slash.

(** ** Vocabulary of the statements *)

Import InteractionContext.

(** An invocation of one of the two operations that build a payload. *)
Inductive Invocation :=
| Send (a : SendArgs)
| Edit (message_id : MessageId) (a : EditArgs).

Definition invoke (tr : Transport) (am : option AllowedMentions → json)
    (i : Invocation) : M Message :=
  match i with
  | Send a => send tr am a
  | Edit message_id a => edit tr am message_id a
  end.

(** The arguments pass the two guards at the head of [send]: not both
    [file] and [files], not both [embed] and [embeds]. *)
Definition send_args_ok (a : SendArgs) : bool :=
  negb (is_not_None (file a) && is_not_None (files a))
  && negb (is_not_None (embed a) && is_not_None (embeds a)).

Definition edit_args_ok (a : EditArgs) : bool :=
  negb (is_not_None (e_file a) && is_not_None (e_files a))
  && negb (is_not_None (e_embed a) && is_not_None (e_embeds a)).

Definition args_ok (i : Invocation) : bool :=
  match i with
  | Send a => send_args_ok a
  | Edit _ a => edit_args_ok a
  end.

(** The attachments a call carries: the single file, or the list. *)
Definition attachments (a : SendArgs) : list File :=
  files_list (file_to_files (file a) (files a)).

Definition e_attachments (a : EditArgs) : list File :=
  files_list (file_to_files (e_file a) (e_files a)).

Definition carried (i : Invocation) : list File :=
  match i with
  | Send a => attachments a
  | Edit _ a => e_attachments a
  end.

(** The calls an operation added to the log. *)
Definition issued {A} (op : M A) (w : World) : list Call :=
  drop (length (calls w)) (calls (op w).2).

(** The attachments an operation closed. *)
Definition released {A} (op : M A) (w : World) : list File :=
  drop (length (closed w)) (closed (op w).2).

(** The two flags, before and after an operation. *)
Definition flags (w : World) : bool * bool :=
  (deferred (self w), responded (self w)).

Definition flags_after {A} (op : M A) (w : World) : bool * bool :=
  flags (op w).2.

(** The result of an operation: the value returned or the exception. *)
Definition outcome {A} (op : M A) (w : World) : Exn + A := (op w).1.

(** The payload of the acknowledgement [defer] sends. *)
Definition defer_payload (hidden : bool) : gmap string json :=
  if hidden then <["data" := JDict [("flags", JInt 64)]]> {[ "type" := JInt 5 ]}
  else {[ "type" := JInt 5 ]}.

(** A transport that answers every call. *)
Definition answers (tr : Transport) : Prop := ∀ h c, is_Some (tr h c).

#[global] Instance File_eq_dec : EqDecision File.
Proof. solve_decision. Defined.

(** How often [close] was called on [f]. *)
Definition close_count (f : File) (l : list File) : nat :=
  length (filter (λ g, g = f) l).

(** The values a dictionary of Python accepts as key, which is what the
    cache lookups of guild and client need: everything but lists and
    dictionaries. *)
Definition hashable (v : json) : bool :=
  match v with
  | JList _ | JDict _ => false
  | _ => true
  end.

(** The slot of [k] in the options of a constructed slash context. *)
Definition option_slot (r : Exn + SlashContext) (k : string) : option OptionValue :=
  match r with
  | inr sc => options sc !! k
  | inl _ => None
  end.

(** ** Sample inputs *)

Module Sample.

Definition map_png : File := {| file_id := 1; filename := "map.png" |}.

Definition hi : SendArgs :=
  {| content := Some (CStr "hi"); tts := false; embed := None; embeds := None;
     file := None; files := None; hidden := false;
     allowed_mentions := None; components := None |}.

Definition with_file : SendArgs :=
  {| content := Some (CStr "hi"); tts := false; embed := None; embeds := None;
     file := Some map_png; files := None; hidden := false;
     allowed_mentions := None; components := None |}.

Definition file_and_files : SendArgs :=
  {| content := None; tts := false; embed := None; embeds := None;
     file := Some map_png; files := Some [map_png]; hidden := false;
     allowed_mentions := None; components := None |}.

Definition edit_hi : EditArgs :=
  {| e_content := Some (CStr "hi"); e_embed := None; e_embeds := None;
     e_file := None; e_files := None;
     e_allowed_mentions := None; e_components := None |}.

Definition edit_with_file : EditArgs :=
  {| e_content := None; e_embed := None; e_embeds := None;
     e_file := Some map_png; e_files := None;
     e_allowed_mentions := None; e_components := None |}.

Definition context (d r : bool) : Context :=
  {| guild := None; channel := Some {| channel_id := 7 |};
     author := AuthorUser JNull; deferred := d; responded := r |}.

Definition world (d r : bool) : World :=
  {| self := context d r; calls := []; closed := [] |}.

Definition answering : Transport := λ _ _, Some JNull.

Definition failing : Transport := λ _ _, None.

Definition mentions : option AllowedMentions → json :=
  λ am, match am with Some m => mentions_to_dict m | None => JNull end.

(** The double nearest to an integer, ties to even, as its bit pattern;
    [OverflowError] beyond the range of the doubles. *)
Definition double_of_Z (z : Z) : Exn + Z :=
  if z =? 0 then inr 0
  else
    let a := Z.abs z in
    let e := Z.log2 a in
    let m :=
      if e <=? 52 then a * 2 ^ (52 - e)
      else
        let shift := e - 52 in
        let q := Z.shiftr a shift in
        let r := Z.land a (Z.ones shift) in
        let half := 2 ^ (shift - 1) in
        if (half <? r) || ((r =? half) && Z.odd q) then q + 1 else q in
    let magnitude := (e + 1023) * 2 ^ 52 + (m - 2 ^ 52) in
    if 2047 * 2 ^ 52 <=? magnitude then inl OverflowError
    else inr (if z <? 0 then 2 ^ 63 + magnitude else magnitude).

(** [float] on the values of the samples: a float is itself, an integer or
    a boolean is converted, [None], lists and dictionaries raise
    [TypeError].  No sample holds a string under an option of type 10; a
    string is answered here with the [ValueError] of a string that is not a
    number. *)
Definition float_of : json → Exn + Z :=
  λ v, match v with
       | JFloat bits => inr bits
       | JInt z => double_of_Z z
       | JBool b => double_of_Z (if b then 1 else 0)
       | JStr _ => inl ValueError
       | JNull | JList _ | JDict _ => inl TypeError
       end.

(** The first of [keys] that the dictionary lacks. *)
Fixpoint missing_key (keys : list string) (kvs : list (string * json))
  : option string :=
  match keys with
  | [] => None
  | k :: keys' =>
      if existsb (λ kv, String.eqb kv.1 k) kvs then missing_key keys' kvs
      else Some k
  end.

(** [discord.User] reads the four keys of a user dictionary. *)
Definition user_init : json → option Exn :=
  λ data, match data with
          | JDict kvs =>
              match missing_key ["username"; "id"; "discriminator"; "avatar"] kvs with
              | Some k => Some (KeyError k)
              | None => None
              end
          | _ => Some TypeError
          end.

(** [discord.Member] reads the user dictionary under [user] and the list
    of role ids under [roles]. *)
Definition member_init : json → Guild → option Exn :=
  λ data _,
    match data with
    | JDict kvs =>
        match missing_key ["user"] kvs with
        | Some k => Some (KeyError k)
        | None =>
            match user_init (default JNull (snd <$> find (λ kv, String.eqb kv.1 "user") kvs)) with
            | Some e => Some e
            | None =>
                match missing_key ["roles"] kvs with
                | Some k => Some (KeyError k)
                | None => None
                end
            end
        end
    | _ => Some TypeError
    end.

(** [snowflake_time]: the id shifted right by 22 bits, plus the epoch of the
    platform, is a time in milliseconds; [None] cannot be shifted. *)
Definition time_of : option Z → option Exn :=
  λ i, match i with
       | None => Some TypeError
       | Some z =>
           let ms := Z.shiftr z 22 + 1420070400000 in
           if (0 <=? ms) && (ms <? 253402300800000) then None else Some ValueError
       end.

Definition discord : Discord :=
  {| Member_init := member_init; User_init := user_init;
     snowflake_time := time_of |}.

Definition client : Client :=
  {| get_guild := λ _, None; get_user := λ _, None;
     state_get_channel := λ cid, Some {| channel_id := cid |} |}.

Definition command (opts : list RawOption) : InteractionPayload :=
  {| payload_id := Some 846742939401355265;
     payload_guild_id := None; payload_channel_id := Some 7;
     payload_member := JNull;
     payload_user :=
       JDict [("id", JStr "1"); ("username", JStr "kim");
              ("discriminator", JStr "0001"); ("avatar", JNull)];
     data_name := JStr "stats"; data_options := opts |}.

Definition int_option (k : string) (z : Z) : RawOption :=
  {| option_name := k; option_value := JInt z; option_type := 4 |}.

Definition user_option (k : string) (z : Z) : RawOption :=
  {| option_name := k; option_value := JInt z; option_type := 6 |}.

Definition role_option (k : string) (z : Z) : RawOption :=
  {| option_name := k; option_value := JInt z; option_type := 8 |}.

End Sample.

(** ** The component context *)

(** The payload of a component click: the fields of every interaction, and
    under [data] the custom id, the component type and the selected values;
    [payload_message] is the snapshot of the hosting message, when present. *)
Record ComponentPayload := {
  component_interaction : InteractionPayload;
  data_custom_id : json;
  data_component_type : option Z;
  data_values : json;
  payload_message : option json
}.

(** The keyword arguments of [update]: those of [send] without [hidden]. *)
Record UpdateArgs := {
  u_content : option Content;
  u_tts : bool;
  u_embed : option Embed;
  u_embeds : option (list Embed);
  u_file : option File;
  u_files : option (list File);
  u_allowed_mentions : option AllowedMentions;
  u_components : option (list Component)
}.

Module Components.

(** [ComponentsContext]: the base context with the attributes its
    constructor adds. *)
Record ComponentsContext := {
  interaction : Context;
  custom_id : json;
  component_type : option Z;
  values : json;
  message : Message
}.

(** [ComponentsContext.__init__]: the selected values are read only for a
    component of type 3; the snapshot of the hosting message is built last,
    from [payload.get("message", {})], by the constructor of
    [module.message.Message], which is not among the sources and is taken as
    [message_init]: the message, or the exception it raises. *)
Definition __init__ (lib : Discord) (message_init : json → Exn + Message)
    (payload : ComponentPayload) (client : Client)
  : Exn + ComponentsContext :=
  match InteractionContext.__init__ lib (component_interaction payload) client with
  | inl e => inl e
  | inr ctx =>
      let custom_id := data_custom_id payload in
      let component_type := data_component_type payload in
      let values := if bool_decide (component_type = Some 3)
                    then data_values payload else JList [] in
      match message_init (match payload_message payload with
                          | Some m => m
                          | None => JDict []
                          end) with
      | inl e => inl e
      | inr msg =>
          inr {| interaction := ctx; custom_id := custom_id;
                 component_type := component_type; values := values;
                 message := msg |}
      end
  end.

(** The calls [update] and [defer_update] make: those shared with the base
    context, and the two of the component variant. *)
Inductive Call :=
| http (c : Http.Call)
| post_initial_components_response (payload : gmap string json)
| edit_message (channel_id : Z) (message_id : json)
    (payload : gmap string json) (form : option Form) (files : option (list File)).

Definition Transport := list Call → Call → option json.

Inductive Error :=
| InvalidArgument
| HTTPException (c : Call)
| AttributeError.

Record World := {
  self : ComponentsContext;
  calls : list Call;
  closed : list File
}.

Definition M (A : Type) : Type := World → (Error + A) * World.

Definition ret {A} (a : A) : M A := fun w => (inr a, w).

Definition raise {A} (e : Error) : M A := fun w => (inl e, w).

Definition bind {A B} (m : M A) (k : A → M B) : M B :=
  fun w =>
    match m w with
    | (inr a, w') => k a w'
    | (inl e, w') => (inl e, w')
    end.

#[local] Instance M_ret : MRet M := @ret.
#[local] Instance M_bind : MBind M := fun A B k m => bind m k.

Definition get_self : M ComponentsContext := fun w => (inr (self w), w).

(** An assignment to one of the two flags of the context. *)
Definition set_flags (f : Context → Context) : M unit :=
  fun w =>
    let c := self w in
    (inr tt,
     {| self := {| interaction := f (interaction c); custom_id := custom_id c;
                   component_type := component_type c; values := values c;
                   message := message c |};
        calls := calls w; closed := closed w |}).

Definition close (f : File) : M unit :=
  fun w => (inr tt, {| self := self w; calls := calls w; closed := closed w ++ [f] |}).

Fixpoint for_each {A} (l : list A) (body : A → M unit) : M unit :=
  match l with
  | [] => ret tt
  | x :: l' => bind (body x) (fun _ => for_each l' body)
  end.

Definition when (cond : bool) (body : M unit) : M unit :=
  if cond then body else ret tt.

Section Operations.

Variable transport : Transport.

Variable _allowed_mentions : option AllowedMentions → json.

(** The [id] attribute of [module.message.Message]; the class is not among
    the sources. *)
Variable message_id : Message → json.

Definition request (c : Call) : M json :=
  fun w =>
    let w' := {| self := self w; calls := calls w ++ [c]; closed := closed w |} in
    match transport (calls w) c with
    | Some resp => (inr resp, w')
    | None => (inl (HTTPException c), w')
    end.

(** [self.channel.id]: the channel is [None] when the lookup of the channel
    id found nothing. *)
Definition channel_id_attr (c : ComponentsContext) : M Z :=
  match channel (interaction c) with
  | Some ch => ret (channel_id ch)
  | None => raise AttributeError
  end.

Definition defer_update (hidden : bool) : M unit :=
  let base : gmap string json := {[ "type" := JInt 6 ]} in
  let base := if hidden then <["data" := JDict [("flags", JInt 64)]]> base else base in
  request (http (post_defer_response base));;
  set_flags (with_deferred true).

Definition update_payload (a : UpdateArgs) : gmap string json :=
  Payload._get_payload
    (str_content (u_content a)) (u_tts a) (embeds_to_dicts (u_embed a) (u_embeds a))
    false (_allowed_mentions (u_allowed_mentions a))
    (components_to_dicts (u_components a)).

Definition update (a : UpdateArgs) : M unit :=
  if is_not_None (u_file a) && is_not_None (u_files a) then raise InvalidArgument else
  if is_not_None (u_embed a) && is_not_None (u_embeds a) then raise InvalidArgument else
  let files := file_to_files (u_file a) (u_files a) in
  let payload := update_payload a in
  let form := make_form files payload in
  ctx ← get_self;
  (if negb (responded (interaction ctx)) then
     when (files_truthy files) (defer_update false);;
     ctx ← get_self;
     (if deferred (interaction ctx)
      then cid ← channel_id_attr ctx;
           request (edit_message cid (message_id (message ctx)) payload form files)
      else request (post_initial_components_response payload));;
     set_flags (with_responded true)
   else request (http (post_followup payload form files));;
        mret tt);;
  when (files_truthy files) (for_each (files_list files) close).

End Operations.

Definition issued {A} (op : M A) (w : World) : list Call :=
  drop (length (calls w)) (calls (op w).2).

Definition released {A} (op : M A) (w : World) : list File :=
  drop (length (closed w)) (closed (op w).2).

Definition flags (w : World) : bool * bool :=
  (deferred (interaction (self w)), responded (interaction (self w))).

Definition flags_after {A} (op : M A) (w : World) : bool * bool :=
  flags (op w).2.

Definition outcome {A} (op : M A) (w : World) : Error + A := (op w).1.

Definition args_ok (a : UpdateArgs) : bool :=
  negb (is_not_None (u_file a) && is_not_None (u_files a))
  && negb (is_not_None (u_embed a) && is_not_None (u_embeds a)).

Definition attachments (a : UpdateArgs) : list File :=
  files_list (file_to_files (u_file a) (u_files a)).

Definition answers (tr : Transport) : Prop := ∀ h c, is_Some (tr h c).

End Components.

(** ** Permission levels *)

Module Perm.

(** A role, through [permissions.administrator]. *)
Record PermRole := { administrator : bool }.

(** The author handed to the checks: the id, and the roles of a guild
    member; [None] is an author without [roles] attribute, which is what a
    [discord.User] outside a guild is. *)
Record PermAuthor := {
  author_id : Z;
  roles : option (list PermRole)
}.

(** The two lists of the [Permission] section of the configuration, decoded
    by [json.loads]: lists of integer ids. *)
Record Config := {
  Owner : list Z;
  SubOwner : list Z
}.

(** A row of the [BLACKLIST] table: the first column and the others. *)
Record Row := { column0 : Z; columns : list json }.

Inductive DbEvent :=
| connect
| execute (sql : string)
| fetchall
| close_connection.

(** The loop of [is_owner] and [is_subowner]: the first equal entry
    returns. *)
Fixpoint id_listed (user_id : Z) (l : list Z) : bool :=
  match l with
  | [] => false
  | i :: l' => if user_id =? i then true else id_listed user_id l'
  end.

Definition is_owner (cfg : Config) (user_id : Z) : bool :=
  id_listed user_id (Owner cfg).

Definition is_subowner (cfg : Config) (author : Z) : bool :=
  id_listed author (SubOwner cfg).

Fixpoint any_administrator (rs : list PermRole) : bool :=
  match rs with
  | [] => false
  | i :: rs' => if administrator i then true else any_administrator rs'
  end.

Definition is_admin (author : PermAuthor) : Exn + bool :=
  match roles author with
  | Some rs => inr (any_administrator rs)
  | None => inl AttributeError
  end.

Fixpoint row_listed (user_id : Z) (rows : list Row) : bool :=
  match rows with
  | [] => false
  | i :: rows' => if column0 i =? user_id then true else row_listed user_id rows'
  end.

(** [is_banned]: the table is fetched whole and the connection closed, then
    the rows are scanned; the second component is what was done to the
    database. *)
Definition is_banned (blacklist : list Row) (user_id : Z) : bool * list DbEvent :=
  (row_listed user_id blacklist,
   [connect; execute "select * from BLACKLIST"; fetchall; close_connection]).

Definition check_perm (cfg : Config) (blacklist : list Row) (author : PermAuthor)
  : (Exn + Z) * list DbEvent :=
  if is_owner cfg (author_id author) then (inr 1, [])
  else if is_subowner cfg (author_id author) then (inr 2, [])
  else match is_admin author with
       | inl e => (inl e, [])
       | inr true => (inr 3, [])
       | inr false =>
           let '(banned, events) := is_banned blacklist (author_id author) in
           if banned then (inr 9, events) else (inr 4, events)
       end.

(** [permission(perm)] applied to a context, through its author. *)
Definition permission (perm : Z) (cfg : Config) (blacklist : list Row)
    (author : PermAuthor) : (Exn + bool) * list DbEvent :=
  match check_perm cfg blacklist author with
  | (inr level, events) => (inr (perm >=? level), events)
  | (inl e, events) => (inl e, events)
  end.

(** A guild member holds the administrator permission through a role. *)
Definition has_admin_role (author : PermAuthor) : Prop :=
  ∃ rs r, roles author = Some rs ∧ r ∈ rs ∧ administrator r = true.

Definition blacklisted (blacklist : list Row) (user_id : Z) : Prop :=
  ∃ r, r ∈ blacklist ∧ column0 r = user_id.

End Perm.

(** ** Sample inputs for the component context and the permission checks *)

Module SampleMore.

Definition click (ch : option Channel) (d r : bool) : Components.World :=
  {| Components.self :=
       {| Components.interaction :=
            {| guild := None; channel := ch; author := AuthorUser JNull;
               deferred := d; responded := r |};
          Components.custom_id := JStr "next";
          Components.component_type := Some 2;
          Components.values := JList [];
          Components.message := {| message_data := JDict [("id", JStr "55")] |} |};
     Components.calls := [];
     Components.closed := [] |}.

Definition text : UpdateArgs :=
  {| u_content := Some (CStr "page 2"); u_tts := false; u_embed := None;
     u_embeds := None; u_file := None; u_files := None;
     u_allowed_mentions := None; u_components := None |}.

Definition picture : UpdateArgs :=
  {| u_content := None; u_tts := false; u_embed := None;
     u_embeds := None; u_file := Some Sample.map_png; u_files := None;
     u_allowed_mentions := None; u_components := None |}.

Definition answering : Components.Transport := λ _ _, Some JNull.

Definition message_id : Message → json :=
  λ m, match message_data m with
       | JDict (("id", v) :: _) => v
       | _ => JNull
       end.

Definition config : Perm.Config :=
  {| Perm.Owner := [1; 2]; Perm.SubOwner := [3] |}.

Definition blacklist : list Perm.Row :=
  [ {| Perm.column0 := 2; Perm.columns := [] |};
    {| Perm.column0 := 8; Perm.columns := [JStr "spam"] |} ].

Definition member (i : Z) (admin : bool) : Perm.PermAuthor :=
  {| Perm.author_id := i;
     Perm.roles := Some [ {| Perm.administrator := false |};
                          {| Perm.administrator := admin |} ] |}.

Definition user (i : Z) : Perm.PermAuthor :=
  {| Perm.author_id := i; Perm.roles := None |}.

End SampleMore.

(** ** The order on worlds *)

(** [extends w w']: the later world [w'] has the logs of [w] as prefixes of
    its own, has every flag set that was set in [w], and the same guild,
    channel and author. *)
Definition extends (w w' : World) : Prop :=
  calls w `prefix_of` calls w'
  ∧ closed w `prefix_of` closed w'
  ∧ (deferred (self w) = true → deferred (self w') = true)
  ∧ (responded (self w) = true → responded (self w') = true)
  ∧ guild (self w') = guild (self w)
  ∧ channel (self w') = channel (self w)
  ∧ author (self w') = author (self w).

(** A coroutine that only ever extends the world it runs on. *)
Definition steady {A} (m : M A) : Prop := ∀ w, extends w (m w).2.

(** ** Running the coroutines *)

Lemma drop_length_app {A} (l k : list A) : drop (length l) (l ++ k) = k.
Proof. by rewrite drop_app_length. Qed.

Lemma drop_length_nil {A} (l : list A) : drop (length l) l = [].
Proof. by rewrite drop_all. Qed.

Lemma for_each_close (l : list File) (w : World) :
  for_each l close w
  = (inr tt, {| self := self w; calls := calls w; closed := closed w ++ l |}).
Proof.
  revert w. induction l as [|f l IH]; intros w.
  - simpl. unfold Co.ret. rewrite app_nil_r. by destruct w.
  - simpl. unfold Co.bind, close. rewrite IH. simpl.
    by rewrite <- app_assoc.
Qed.

Lemma attachments_none (fs : option (list File)) :
  files_list fs = [] → files_truthy fs = false.
Proof. by destruct fs as [[|]|]. Qed.

Lemma attachments_some (fs : option (list File)) :
  files_list fs ≠ [] → files_truthy fs = true ∧ fs = Some (files_list fs).
Proof. by destruct fs as [[|]|]. Qed.

Lemma send_args_ok_guards (a : SendArgs) :
  send_args_ok a = true →
  is_not_None (file a) && is_not_None (files a) = false
  ∧ is_not_None (embed a) && is_not_None (embeds a) = false.
Proof.
  unfold send_args_ok. intros [H1 H2]%andb_true_iff.
  by apply negb_true_iff in H1, H2.
Qed.

Lemma edit_args_ok_guards (a : EditArgs) :
  edit_args_ok a = true →
  is_not_None (e_file a) && is_not_None (e_files a) = false
  ∧ is_not_None (e_embed a) && is_not_None (e_embeds a) = false.
Proof.
  unfold edit_args_ok. intros [H1 H2]%andb_true_iff.
  by apply negb_true_iff in H1, H2.
Qed.

Lemma is_original_spec (m : MessageId) :
  is_original m = true ↔ m = MidStr "@original".
Proof.
  destruct m as [s|z]; simpl.
  - rewrite String.eqb_eq. split; congruence.
  - split; discriminate.
Qed.

Ltac unfold_co :=
  unfold mbind, M_bind, mret, M_ret, Co.bind, Co.ret, Co.raise, Co.when,
    get_self, set_self, request, issued, released, flags_after, flags, outcome.

(** ** The state machine of [send] *)

(** C1: on a fresh context (deferred=false, responded=false), [send] without
    attachments issues the post-initial-response call, then the
    get-initial-response fetch, and nothing else, and leaves the flags at
    (false, true).  The arguments pass the guards of [send] and the transport
    answers both calls. *)
Theorem send_fresh_no_attachment
    (tr : Transport) (am : option AllowedMentions → json)
    (a : SendArgs) (w : World) (r1 r2 : json) :
  flags w = (false, false) →
  send_args_ok a = true →
  attachments a = [] →
  tr (calls w) (post_initial_response (send_payload am a)) = Some r1 →
  tr (calls w ++ [post_initial_response (send_payload am a)]) get_initial_response
    = Some r2 →
  issued (send tr am a) w
    = [post_initial_response (send_payload am a); get_initial_response]
  ∧ flags_after (send tr am a) w = (false, true)
  ∧ outcome (send tr am a) w = inr {| message_data := r2 |}.
Proof.
  unfold flags, attachments. intros Hfl Hok Hatt H1 H2.
  injection Hfl as Hd Hr.
  apply send_args_ok_guards in Hok as [Hf He].
  apply attachments_none in Hatt as Ht.
  unfold send. rewrite Hf, He.
  unfold_co. simpl. rewrite Hr. simpl. rewrite Ht. simpl. rewrite Hd. simpl.
  rewrite H1. simpl. rewrite H2. simpl.
  by rewrite <- app_assoc, drop_length_app, Hd.
Qed.

Lemma send_fresh_no_attachment_witness :
  issued (send Sample.answering Sample.mentions Sample.hi) (Sample.world false false)
    = [post_initial_response (send_payload Sample.mentions Sample.hi);
       get_initial_response]
  ∧ flags_after (send Sample.answering Sample.mentions Sample.hi)
      (Sample.world false false) = (false, true)
  ∧ outcome (send Sample.answering Sample.mentions Sample.hi)
      (Sample.world false false) = inr {| message_data := JNull |}.
Proof.
  apply (send_fresh_no_attachment Sample.answering Sample.mentions Sample.hi
           (Sample.world false false) JNull JNull); reflexivity.
Defined.

(** C2: on a fresh context, [send] with exactly one attachment issues the
    deferred acknowledgement (type 5), then the edit-initial-response call
    carrying a multipart body, and nothing else, and leaves the flags at
    (true, true).  The arguments pass the guards of [send] and the transport
    answers both calls. *)
Theorem send_fresh_one_attachment
    (tr : Transport) (am : option AllowedMentions → json)
    (a : SendArgs) (w : World) (f : File) (r1 r2 : json) :
  let ack := post_defer_response (defer_payload (hidden a)) in
  let body := _files_to_form [f] (send_payload am a) in
  let upload := edit_initial_response (send_payload am a) (Some body) (Some [f]) in
  flags w = (false, false) →
  send_args_ok a = true →
  attachments a = [f] →
  tr (calls w) ack = Some r1 →
  tr (calls w ++ [ack]) upload = Some r2 →
  issued (send tr am a) w = [ack; upload]
  ∧ defer_payload (hidden a) !! "type" = Some (JInt 5)
  ∧ flags_after (send tr am a) w = (true, true)
  ∧ outcome (send tr am a) w = inr {| message_data := r2 |}.
Proof.
  cbv zeta. unfold flags, attachments. intros Hfl Hok Hatt H1 H2.
  injection Hfl as Hd Hr.
  apply send_args_ok_guards in Hok as [Hf He].
  destruct (attachments_some (file_to_files (file a) (files a))) as [Ht Hfs];
    [by rewrite Hatt|].
  rewrite Hatt in Hfs.
  unfold send. rewrite Hf, He.
  unfold_co. simpl. rewrite Hr. simpl. rewrite Ht. simpl.
  unfold defer, make_form. unfold_co. rewrite Ht, Hfs. simpl.
  fold (defer_payload (hidden a)). rewrite H1. simpl. rewrite H2. simpl.
  rewrite <- app_assoc, drop_length_app.
  split_and!; try done.
  unfold defer_payload. destruct (hidden a); by simplify_map_eq.
Qed.

Lemma send_fresh_one_attachment_witness :
  issued (send Sample.answering Sample.mentions Sample.with_file)
    (Sample.world false false)
    = [post_defer_response (defer_payload false);
       edit_initial_response (send_payload Sample.mentions Sample.with_file)
         (Some (_files_to_form [Sample.map_png]
                  (send_payload Sample.mentions Sample.with_file)))
         (Some [Sample.map_png])]
  ∧ flags_after (send Sample.answering Sample.mentions Sample.with_file)
      (Sample.world false false) = (true, true).
Proof.
  pose proof (send_fresh_one_attachment Sample.answering Sample.mentions
                Sample.with_file (Sample.world false false) Sample.map_png
                JNull JNull eq_refl eq_refl eq_refl eq_refl eq_refl)
    as (Hi & _ & Hf & _).
  exact (conj Hi Hf).
Defined.

(** C4: once responded=true, every further [send] whose arguments pass the
    guards issues exactly one call, the follow-up, and leaves both flags as
    they were, whether the transport answers the call or not. *)
Theorem send_after_responded
    (tr : Transport) (am : option AllowedMentions → json)
    (a : SendArgs) (w : World) :
  let fs := file_to_files (file a) (files a) in
  responded (self w) = true →
  send_args_ok a = true →
  issued (send tr am a) w
    = [post_followup (send_payload am a) (make_form fs (send_payload am a)) fs]
  ∧ flags_after (send tr am a) w = flags w.
Proof.
  cbv zeta. intros Hr Hok.
  apply send_args_ok_guards in Hok as [Hf He].
  unfold send. rewrite Hf, He.
  unfold_co. simpl. rewrite Hr. simpl.
  destruct (tr (calls w) _) as [resp|]; simpl.
  - destruct (files_truthy _); simpl.
    + rewrite for_each_close. simpl. by rewrite drop_length_app, Hr.
    + by rewrite drop_length_app, Hr.
  - by rewrite drop_length_app, Hr.
Qed.

Lemma send_after_responded_witness :
  issued (send Sample.failing Sample.mentions Sample.with_file)
    (Sample.world true true)
    = [post_followup (send_payload Sample.mentions Sample.with_file)
         (Some (_files_to_form [Sample.map_png]
                  (send_payload Sample.mentions Sample.with_file)))
         (Some [Sample.map_png])]
  ∧ flags_after (send Sample.failing Sample.mentions Sample.with_file)
      (Sample.world true true) = (true, true).
Proof.
  exact (send_after_responded Sample.failing Sample.mentions Sample.with_file
           (Sample.world true true) eq_refl eq_refl).
Defined.

(** ** The targets of [edit] *)

(** C5: whatever the two flags are, [edit] with message id "@original"
    issues the edit-initial-response call and [edit] with any other message
    id issues the edit-followup call for that id; nothing else is issued and
    both flags stay as they were.  The arguments pass the guards of [edit]. *)
Theorem edit_targets
    (tr : Transport) (am : option AllowedMentions → json)
    (message_id : MessageId) (a : EditArgs) (w : World) :
  let fs := file_to_files (e_file a) (e_files a) in
  let p := edit_payload am a in
  edit_args_ok a = true →
  (message_id = MidStr "@original" →
     issued (edit tr am message_id a) w
       = [edit_initial_response p (make_form fs p) fs])
  ∧ (message_id ≠ MidStr "@original" →
     issued (edit tr am message_id a) w
       = [edit_followup message_id p (make_form fs p) fs])
  ∧ flags_after (edit tr am message_id a) w = flags w.
Proof.
  cbv zeta. intros Hok.
  apply edit_args_ok_guards in Hok as [Hf He].
  assert (Hrun : ∀ c, issued (x ← request tr c;
                         when (files_truthy (file_to_files (e_file a) (e_files a)))
                           (for_each (files_list (file_to_files (e_file a) (e_files a)))
                              close);;
                         mret {| message_data := x |}) w = [c]
                     ∧ flags_after (x ← request tr c;
                         when (files_truthy (file_to_files (e_file a) (e_files a)))
                           (for_each (files_list (file_to_files (e_file a) (e_files a)))
                              close);;
                         mret {| message_data := x |}) w = flags w).
  { intros c. unfold_co. simpl.
    destruct (tr (calls w) c) as [resp|]; simpl.
    - destruct (files_truthy _); simpl.
      + rewrite for_each_close. simpl. by rewrite drop_length_app.
      + by rewrite drop_length_app.
    - by rewrite drop_length_app. }
  unfold edit. rewrite Hf, He. cbv zeta.
  destruct (is_original message_id) eqn:Ho.
  - apply is_original_spec in Ho as ->.
    split_and!; [intros _; apply Hrun | done | apply Hrun].
  - split_and!; [|intros _; apply Hrun | apply Hrun].
    intros ->. discriminate.
Qed.

Lemma edit_targets_witness :
  issued (edit Sample.answering Sample.mentions (MidInt 42) Sample.edit_hi)
    (Sample.world true false)
    = [edit_followup (MidInt 42) (edit_payload Sample.mentions Sample.edit_hi)
         None None]
  ∧ flags_after (edit Sample.answering Sample.mentions (MidInt 42) Sample.edit_hi)
      (Sample.world true false) = (true, false).
Proof.
  pose proof (edit_targets Sample.answering Sample.mentions (MidInt 42)
                Sample.edit_hi (Sample.world true false) eq_refl)
    as (_ & Hother & Hflags).
  split; [apply Hother; discriminate | exact Hflags].
Defined.

(** ** Mutually exclusive arguments *)

(** C6: an invocation of [send] or [edit] that supplies both [file] and
    [files], or both [embed] and [embeds], raises [InvalidArgument] at once:
    the world is left exactly as it was, so no call is issued, no attachment
    is closed and the two flags are unchanged. *)
Theorem exclusive_arguments_rejected
    (tr : Transport) (am : option AllowedMentions → json)
    (i : Invocation) (w : World) :
  args_ok i = false →
  invoke tr am i w = (inl InvalidArgument, w)
  ∧ outcome (invoke tr am i) w = inl InvalidArgument
  ∧ issued (invoke tr am i) w = []
  ∧ flags_after (invoke tr am i) w = flags w.
Proof.
  intros Hbad.
  assert (Hrun : invoke tr am i w = (inl InvalidArgument, w)).
  { destruct i as [a|mid a]; simpl in *.
    - unfold send_args_ok in Hbad. unfold send.
      destruct (is_not_None (file a) && is_not_None (files a)); [done|].
      destruct (is_not_None (embed a) && is_not_None (embeds a)); [done|].
      discriminate.
    - unfold edit_args_ok in Hbad. unfold edit.
      destruct (is_not_None (e_file a) && is_not_None (e_files a)); [done|].
      destruct (is_not_None (e_embed a) && is_not_None (e_embeds a)); [done|].
      discriminate. }
  unfold outcome, issued, flags_after. rewrite Hrun. simpl.
  by rewrite drop_length_nil.
Qed.

Lemma exclusive_arguments_rejected_witness :
  invoke Sample.answering Sample.mentions (Send Sample.file_and_files)
    (Sample.world false false)
  = (inl InvalidArgument, Sample.world false false).
Proof.
  exact (proj1 (exclusive_arguments_rejected Sample.answering Sample.mentions
                  (Send Sample.file_and_files) (Sample.world false false)
                  eq_refl)).
Defined.

(** ** Attachments and the defer step *)

(** The claim C3 fails on a context that is deferred but has not responded:
    [send] with an attachment issues a second deferred acknowledgement
    before the edit. *)
Lemma send_deferred_attachment_defers_again :
  flags (Sample.world true false) = (true, false)
  ∧ attachments Sample.with_file = [Sample.map_png]
  ∧ issued (send Sample.answering Sample.mentions Sample.with_file)
      (Sample.world true false)
    = [post_defer_response (defer_payload false);
       edit_initial_response (send_payload Sample.mentions Sample.with_file)
         (Some (_files_to_form [Sample.map_png]
                  (send_payload Sample.mentions Sample.with_file)))
         (Some [Sample.map_png])]
  ∧ existsb is_defer
      (issued (send Sample.answering Sample.mentions Sample.with_file)
         (Sample.world true false)) = true.
Proof. split_and!; reflexivity. Qed.

(** C3, amended: for every [send] with attachments whose arguments pass the
    guards, over a transport that answers: while responded=false the defer
    step comes first and the edit of the initial response follows, whether
    the context was already deferred or not (the deferred flag is not
    consulted); once responded=true the attachments go out in the single
    follow-up call and no defer is issued. *)
Theorem send_attachments_defer_step
    (tr : Transport) (am : option AllowedMentions → json)
    (a : SendArgs) (w : World) :
  let fs := attachments a in
  let p := send_payload am a in
  let body := Some (_files_to_form fs p) in
  send_args_ok a = true →
  attachments a ≠ [] →
  answers tr →
  (responded (self w) = false →
     issued (send tr am a) w
       = [post_defer_response (defer_payload (hidden a));
          edit_initial_response p body (Some fs)]
     ∧ flags_after (send tr am a) w = (true, true))
  ∧ (responded (self w) = true →
     issued (send tr am a) w = [post_followup p body (Some fs)]
     ∧ existsb is_defer (issued (send tr am a) w) = false
     ∧ flags_after (send tr am a) w = flags w).
Proof.
  cbv zeta. unfold attachments. intros Hok Hatt Hall.
  destruct (attachments_some _ Hatt) as [Ht Hfs].
  split.
  - intros Hr.
    apply send_args_ok_guards in Hok as [Hf He].
    unfold send. rewrite Hf, He.
    unfold_co. simpl. rewrite Hr. simpl. rewrite Ht. simpl.
    unfold defer, make_form. unfold_co. rewrite Ht. simpl.
    fold (defer_payload (hidden a)).
    destruct (Hall (calls w) (post_defer_response (defer_payload (hidden a))))
      as [r1 ->]. simpl.
    match goal with
    | |- context [tr ?h ?c] => destruct (Hall h c) as [r2 ->]
    end. simpl.
    rewrite for_each_close. simpl.
    rewrite <- app_assoc, drop_length_app. by rewrite <- Hfs.
  - intros Hr.
    destruct (send_after_responded tr am a w Hr Hok) as [Hi Hfl].
    rewrite Hi, Hfl. unfold make_form. rewrite Ht.
    by rewrite <- Hfs.
Qed.

Lemma send_attachments_defer_step_witness :
  issued (send Sample.answering Sample.mentions Sample.with_file)
    (Sample.world true false)
    = [post_defer_response (defer_payload false);
       edit_initial_response (send_payload Sample.mentions Sample.with_file)
         (Some (_files_to_form [Sample.map_png]
                  (send_payload Sample.mentions Sample.with_file)))
         (Some [Sample.map_png])]
  ∧ flags_after (send Sample.answering Sample.mentions Sample.with_file)
      (Sample.world true false) = (true, true).
Proof.
  refine (proj1 (send_attachments_defer_step Sample.answering Sample.mentions
                   Sample.with_file (Sample.world true false) eq_refl _ _)
            eq_refl).
  - discriminate.
  - intros h c. exists JNull. reflexivity.
Defined.

(** ** Release of the attachments *)

Lemma close_count_not_in (f : File) (l : list File) :
  f ∉ l → close_count f l = 0%nat.
Proof.
  unfold close_count. induction l as [|g l IH]; [done|].
  intros Hnot. apply not_elem_of_cons in Hnot as [Hne Hnot].
  rewrite filter_cons_False by congruence. by apply IH.
Qed.

Lemma close_count_NoDup (f : File) (l : list File) :
  NoDup l → f ∈ l → close_count f l = 1%nat.
Proof.
  induction 1 as [|g l Hg Hnd IH]; intros Hin.
  - by apply elem_of_nil in Hin.
  - unfold close_count. apply elem_of_cons in Hin as [->|Hin].
    + rewrite filter_cons_True by done. simpl.
      f_equal. by apply close_count_not_in.
    + rewrite filter_cons_False; [by apply IH|].
      intros ->. contradiction.
Qed.

(** The claim C7 fails when the transport raises: [send] leaves through the
    exception of the first call and the attachment is never closed; the same
    holds for [edit]. *)
Lemma transport_failure_leaks_attachment :
  carried (Send Sample.with_file) = [Sample.map_png]
  ∧ outcome (invoke Sample.failing Sample.mentions (Send Sample.with_file))
      (Sample.world false false)
    = inl (HTTPException (post_defer_response (defer_payload false)))
  ∧ close_count Sample.map_png
      (released (invoke Sample.failing Sample.mentions (Send Sample.with_file))
         (Sample.world false false)) = 0%nat
  ∧ close_count Sample.map_png
      (released (invoke Sample.failing Sample.mentions
                   (Edit (MidStr "@original") Sample.edit_with_file))
         (Sample.world false false)) = 0%nat.
Proof. split_and!; reflexivity. Qed.

(** C7, amended: for every [send] or [edit] carrying at least one
    attachment, with arguments that pass the guards and over a transport
    that answers every call, the operation returns and has closed the
    attachments it carried, each once and in order: the closed files are
    exactly the carried list, so an attachment that is listed once is closed
    exactly once. *)
Theorem attachments_released_on_return
    (tr : Transport) (am : option AllowedMentions → json)
    (i : Invocation) (w : World) :
  args_ok i = true →
  carried i ≠ [] →
  answers tr →
  (∃ msg, outcome (invoke tr am i) w = inr msg)
  ∧ released (invoke tr am i) w = carried i
  ∧ (NoDup (carried i) →
     ∀ f, f ∈ carried i → close_count f (released (invoke tr am i) w) = 1%nat).
Proof.
  intros Hok Hatt Hall.
  assert (Hrun : (∃ msg, outcome (invoke tr am i) w = inr msg)
                 ∧ released (invoke tr am i) w = carried i).
  { destruct i as [a|mid a]; simpl in *.
    - unfold attachments in *.
      destruct (attachments_some _ Hatt) as [Ht Hfs].
      apply send_args_ok_guards in Hok as [Hf He].
      unfold send. rewrite Hf, He.
      unfold_co. simpl. rewrite Ht.
      destruct (responded (self w)); simpl.
      + match goal with
        | |- context [tr ?h ?c] => destruct (Hall h c) as [r ->]
        end. simpl.
        rewrite for_each_close. simpl. rewrite drop_length_app. eauto.
      + unfold defer. unfold_co. simpl.
        match goal with
        | |- context [tr ?h ?c] => destruct (Hall h c) as [r1 ->]
        end. simpl.
        match goal with
        | |- context [tr ?h ?c] => destruct (Hall h c) as [r2 ->]
        end. simpl.
        rewrite for_each_close. simpl. rewrite drop_length_app. eauto.
    - unfold e_attachments in *.
      destruct (attachments_some _ Hatt) as [Ht Hfs].
      apply edit_args_ok_guards in Hok as [Hf He].
      unfold edit. rewrite Hf, He.
      unfold_co. simpl. rewrite Ht.
      destruct (is_original mid); simpl.
      + match goal with
        | |- context [tr ?h ?c] => destruct (Hall h c) as [r ->]
        end. simpl.
        rewrite for_each_close. simpl. rewrite drop_length_app. eauto.
      + match goal with
        | |- context [tr ?h ?c] => destruct (Hall h c) as [r ->]
        end. simpl.
        rewrite for_each_close. simpl. rewrite drop_length_app. eauto. }
  destruct Hrun as [Hret Hrel].
  split_and!; [done | done |].
  intros Hnd f Hin. rewrite Hrel. by apply close_count_NoDup.
Qed.

Lemma attachments_released_on_return_witness :
  released (invoke Sample.answering Sample.mentions (Send Sample.with_file))
    (Sample.world false false) = [Sample.map_png].
Proof.
  refine (proj1 (proj2 (attachments_released_on_return Sample.answering
                          Sample.mentions (Send Sample.with_file)
                          (Sample.world false false) eq_refl _ _))).
  - discriminate.
  - intros h c. exists JNull. reflexivity.
Defined.

(** ** The options of a slash command *)

Section SlashOptions.

#[local] Arguments Slash.set_option : simpl never.

Variable pf : json → Exn + Z.
Variable cl : Client.
Variable g : option Guild.

(** What one round of the loop does to the state: an option of user type
    leaves the mapping alone; any other round that returns has stored one
    value under the option's name, the same value whatever the state. *)
Lemma set_option_cases (o : RawOption)
    (m m' : gmap string OptionValue) (mem mem' : option Mentioned) :
  Slash.set_option pf cl g o (m, mem) = inr (m', mem') →
  (option_type o = 6 ∧ m' = m)
  ∨ (option_type o ≠ 6 ∧ mem' = mem
     ∧ ∃ v, m' = <[option_name o := v]> m
         ∧ ∀ m0 mem0, Slash.set_option pf cl g o (m0, mem0)
                      = inr (<[option_name o := v]> m0, mem0)).
Proof.
  unfold Slash.set_option.
  destruct (option_type o =? 3) eqn:E3.
  { apply Z.eqb_eq in E3. intros [= <- <-]. right.
    split_and!; [lia | done | eauto]. }
  destruct (option_type o =? 4) eqn:E4.
  { apply Z.eqb_eq in E4. intros [= <- <-]. right.
    split_and!; [lia | done | eauto]. }
  destruct (option_type o =? 5) eqn:E5.
  { apply Z.eqb_eq in E5. intros [= <- <-]. right.
    split_and!; [lia | done | eauto]. }
  destruct (option_type o =? 6) eqn:E6.
  { apply Z.eqb_eq in E6. left. split; [done|].
    destruct g; congruence. }
  apply Z.eqb_neq in E6.
  destruct ((option_type o =? 7) && is_not_None g) eqn:E7.
  { destruct g as [gd|]; [|discriminate].
    intros [= <- <-]. right. split_and!; [done | done | eauto]. }
  destruct (option_type o =? 8) eqn:E8.
  { destruct g as [gd|]; [|discriminate].
    intros [= <- <-]. right. split_and!; [done | done | eauto]. }
  destruct (option_type o =? 10) eqn:E10.
  { destruct (pf (option_value o)) as [e|bits]; [discriminate|].
    intros [= <- <-]. right. split_and!; [done | done | eauto]. }
  intros [= <- <-]. right. split_and!; [done | done | eauto].
Qed.

Lemma parse_options_app (l1 l2 : list RawOption)
    (st : gmap string OptionValue * option Mentioned) :
  Slash.parse_options pf cl g (l1 ++ l2) st
  = match Slash.parse_options pf cl g l1 st with
    | inr st' => Slash.parse_options pf cl g l2 st'
    | inl e => inl e
    end.
Proof.
  revert st. induction l1 as [|o l1 IH]; intros st; simpl; [done|].
  by destruct (Slash.set_option pf cl g o st).
Qed.

(** Rounds that do not write under [k] leave the slot of [k] alone. *)
Lemma parse_options_frame (k : string) (opts : list RawOption)
    (m m' : gmap string OptionValue) (mem mem' : option Mentioned) :
  Slash.parse_options pf cl g opts (m, mem) = inr (m', mem') →
  (∀ o, o ∈ opts → option_name o = k → option_type o = 6) →
  m' !! k = m !! k.
Proof.
  revert m mem. induction opts as [|o opts IH]; intros m mem; simpl.
  - by intros [= <- <-].
  - destruct (Slash.set_option pf cl g o (m, mem)) as [e|[m1 mem1]] eqn:Hs;
      [done|].
    intros Hrest Hskip.
    rewrite (IH m1 mem1 Hrest) by (intros o' Ho'; apply Hskip; by right).
    destruct (set_option_cases _ _ _ _ _ Hs) as [[_ ->]|(Hne & _ & v & -> & _)];
      [done|].
    apply lookup_insert_ne. intros Hk. apply Hne, Hskip; [by left | done].
Qed.

(** The names that hold a slot after the loop. *)
Lemma parse_options_dom (k : string) (opts : list RawOption)
    (m m' : gmap string OptionValue) (mem mem' : option Mentioned) :
  Slash.parse_options pf cl g opts (m, mem) = inr (m', mem') →
  is_Some (m' !! k)
  ↔ is_Some (m !! k)
    ∨ ∃ o, o ∈ opts ∧ option_name o = k ∧ option_type o ≠ 6.
Proof.
  revert m mem. induction opts as [|o opts IH]; intros m mem; simpl.
  - intros [= <- <-]. split; [by left|].
    intros [?|(o & Ho & _)]; [done|]. by apply elem_of_nil in Ho.
  - destruct (Slash.set_option pf cl g o (m, mem)) as [e|[m1 mem1]] eqn:Hs;
      [done|].
    intros Hrest. rewrite (IH m1 mem1 Hrest).
    destruct (set_option_cases _ _ _ _ _ Hs) as [[H6 ->]|(Hne & _ & v & -> & _)].
    + split.
      * intros [?|(o' & Ho' & Hn & Ht)]; [by left|].
        right. exists o'. split_and!; [by right | done | done].
      * intros [?|(o' & Ho' & Hn & Ht)]; [by left|].
        apply elem_of_cons in Ho' as [->|Ho']; [done|].
        right. eauto.
    + split.
      * intros [Hin|(o' & Ho' & Hn & Ht)].
        -- destruct (decide (option_name o = k)) as [Hk|Hk].
           ++ right. exists o. split_and!; [by left | done | done].
           ++ left. by rewrite lookup_insert_ne in Hin.
        -- right. exists o'. split_and!; [by right | done | done].
      * intros [Hin|(o' & Ho' & Hn & Ht)].
        -- left. destruct (decide (option_name o = k)) as [<-|Hk].
           ++ rewrite lookup_insert_eq. eauto.
           ++ by rewrite lookup_insert_ne.
        -- apply elem_of_cons in Ho' as [->|Ho'].
           ++ left. rewrite <- Hn, lookup_insert_eq. eauto.
           ++ right. eauto.
Qed.

(** The slot of [k] is the one written by the last round that writes it. *)
Lemma parse_options_last (k : string) (pre post : list RawOption) (o : RawOption)
    (m m' : gmap string OptionValue) (mem mem' : option Mentioned) :
  Slash.parse_options pf cl g (pre ++ o :: post) (m, mem) = inr (m', mem') →
  option_name o = k →
  option_type o ≠ 6 →
  (∀ o', o' ∈ post → option_name o' = k → option_type o' = 6) →
  ∃ v, m' !! k = Some v
       ∧ ∀ m0 mem0, Slash.set_option pf cl g o (m0, mem0)
                    = inr (<[k := v]> m0, mem0).
Proof.
  rewrite parse_options_app.
  destruct (Slash.parse_options pf cl g pre (m, mem)) as [e|[m1 mem1]];
    [done|].
  simpl.
  destruct (Slash.set_option pf cl g o (m1, mem1)) as [e|[m2 mem2]] eqn:Hs;
    [done|].
  intros Hpost Hk Hne Hskip.
  destruct (set_option_cases _ _ _ _ _ Hs) as [[H6 _]|(_ & _ & v & -> & Hv)];
    [done|].
  exists v. rewrite (parse_options_frame k _ _ _ _ _ Hpost Hskip).
  rewrite <- Hk. split; [apply lookup_insert_eq | done].
Qed.

End SlashOptions.

(** The claim C8 fails on duplicate names, where the later occurrence
    replaces the earlier one, and on options of user type, which get no slot
    at all. *)
Lemma duplicate_option_last_wins :
  option_slot
    (Slash.__init__ Sample.float_of Sample.discord
       (Sample.command [Sample.int_option "n" 1; Sample.int_option "n" 2])
       Sample.client) "n"
  = Some (OValue (JInt 2))
  ∧ option_slot
      (Slash.__init__ Sample.float_of Sample.discord
         (Sample.command [Sample.int_option "n" 1; Sample.int_option "n" 2])
         Sample.client) "n"
    ≠ Some (OValue (JInt 1))
  ∧ option_slot
      (Slash.__init__ Sample.float_of Sample.discord
         (Sample.command [Sample.user_option "who" 5]) Sample.client) "who"
    = None.
Proof. split_and!; [reflexivity | discriminate | reflexivity]. Qed.

(** C8, amended: in every slash context that was constructed, a name holds a
    slot of the options mapping exactly when the payload declares an option
    of that name with a type other than 6 (user); the mapping holds one slot
    per such name, and when a name is declared more than once the slot holds
    the typed value of its last occurrence of a type other than 6. *)
Theorem options_last_occurrence_wins
    (pf : json → Exn + Z) (lib : Discord)
    (payload : InteractionPayload) (client : Client)
    (sc : SlashContext) (k : string) :
  Slash.__init__ pf lib payload client = inr sc →
  (is_Some (options sc !! k)
   ↔ ∃ o, o ∈ data_options payload ∧ option_name o = k ∧ option_type o ≠ 6)
  ∧ (∀ pre o post,
       data_options payload = pre ++ o :: post →
       option_name o = k →
       option_type o ≠ 6 →
       (∀ o', o' ∈ post → option_name o' = k → option_type o' = 6) →
       ∃ v, options sc !! k = Some v
            ∧ ∀ m mem, Slash.set_option pf client (guild (base sc)) o (m, mem)
                       = inr (<[k := v]> m, mem)).
Proof.
  unfold Slash.__init__.
  destruct (InteractionContext.__init__ lib payload client) as [e|ctx]; [done|].
  destruct (Slash.parse_options pf client (guild ctx) (data_options payload) (∅, None))
    as [e|[m mem]] eqn:Hparse; [done|].
  intros [= <-]. simpl. split.
  - rewrite (parse_options_dom _ _ _ k _ _ _ _ _ Hparse).
    rewrite lookup_empty. split.
    + intros [[? ?]|?]; [done | done].
    + by right.
  - intros pre o post Hopts Hk Hne Hskip. rewrite Hopts in Hparse.
    exact (parse_options_last _ _ _ k _ _ _ _ _ _ _ Hparse Hk Hne Hskip).
Qed.

Lemma options_last_occurrence_wins_witness :
  ∃ sc,
    Slash.__init__ Sample.float_of Sample.discord
      (Sample.command [Sample.int_option "n" 1; Sample.user_option "n" 9;
                       Sample.int_option "n" 2; Sample.user_option "n" 9])
      Sample.client = inr sc
    ∧ is_Some (options sc !! "n")
    ∧ ∃ v, options sc !! "n" = Some v
           ∧ ∀ m mem, Slash.set_option Sample.float_of Sample.client
                        (guild (base sc)) (Sample.int_option "n" 2) (m, mem)
                      = inr (<["n" := v]> m, mem).
Proof.
  eexists. split; [reflexivity|].
  pose proof (options_last_occurrence_wins Sample.float_of Sample.discord
                (Sample.command [Sample.int_option "n" 1; Sample.user_option "n" 9;
                                 Sample.int_option "n" 2; Sample.user_option "n" 9])
                Sample.client _ "n" eq_refl) as [Hdom Hlast].
  split.
  - apply Hdom. exists (Sample.int_option "n" 1).
    split_and!; [by left | reflexivity | discriminate].
  - apply (Hlast [Sample.int_option "n" 1; Sample.user_option "n" 9]
             (Sample.int_option "n" 2) [Sample.user_option "n" 9]);
      [reflexivity | reflexivity | discriminate |].
    intros o' ->%list_elem_of_singleton _. reflexivity.
Defined.

(** ** Role options outside a guild *)

Lemma parse_options_role_without_guild (pf : json → Exn + Z) (cl : Client)
    (opts : list RawOption) (o : RawOption)
    (st : gmap string OptionValue * option Mentioned) :
  o ∈ opts → option_type o = 8 →
  ∃ e, Slash.parse_options pf cl None opts st = inl e.
Proof.
  intros Hin H8. revert st.
  induction opts as [|o' opts IH]; intros st; [by apply elem_of_nil in Hin|].
  simpl. apply elem_of_cons in Hin as [<-|Hin].
  - destruct st as [m mem]. unfold Slash.set_option. rewrite H8. simpl. eauto.
  - destruct (Slash.set_option pf cl None o' st) as [e|st']; [eauto|].
    by apply IH.
Qed.

Lemma parse_options_role_attribute_error (pf : json → Exn + Z) (cl : Client)
    (pre post : list RawOption) (o : RawOption)
    (st st' : gmap string OptionValue * option Mentioned) :
  option_type o = 8 →
  Slash.parse_options pf cl None pre st = inr st' →
  Slash.parse_options pf cl None (pre ++ o :: post) st = inl AttributeError.
Proof.
  intros H8 Hpre. rewrite parse_options_app, Hpre. simpl.
  destruct st' as [m mem]. unfold Slash.set_option. by rewrite H8.
Qed.

Lemma base_init_returns (lib : Discord) (payload : InteractionPayload)
    (client : Client) (ctx : Context) :
  InteractionContext.__init__ lib payload client = inr ctx →
  guild ctx = resolve_guild payload client
  ∧ deferred ctx = false
  ∧ responded ctx = false
  ∧ is_Some (payload_channel_id payload).
Proof.
  unfold InteractionContext.__init__.
  destruct (payload_channel_id payload) as [cid|]; [|done].
  destruct (make_author lib _ payload) as [e|au]; [done|].
  destruct (snowflake_time lib _) as [e|]; [done|].
  intros [= <-]. simpl. by split_and!.
Qed.

(** C10: when the context has no guild (the payload carries no guild id, or
    the lookup of the id finds nothing), constructing a [SlashContext] from a
    payload that declares an option of role type (tag 8) raises: no context
    is returned.  The round of the loop on such an option raises
    [AttributeError] whatever was parsed before, since it reads [get_role]
    from the missing guild; and when the base constructor returned and the
    role option is the first one, that [AttributeError] is what the
    constructor raises. *)
Theorem role_option_without_guild_raises
    (pf : json → Exn + Z) (lib : Discord)
    (payload : InteractionPayload) (client : Client)
    (o : RawOption) :
  resolve_guild payload client = None →
  o ∈ data_options payload →
  option_type o = 8 →
  (∃ e, Slash.__init__ pf lib payload client = inl e)
  ∧ (∀ st, Slash.set_option pf client None o st = inl AttributeError)
  ∧ (∀ ctx post,
       InteractionContext.__init__ lib payload client = inr ctx →
       data_options payload = o :: post →
       Slash.__init__ pf lib payload client = inl AttributeError).
Proof.
  intros Hg Hin H8.
  assert (Hround : ∀ st, Slash.set_option pf client None o st = inl AttributeError).
  { intros [m mem]. unfold Slash.set_option. by rewrite H8. }
  unfold Slash.__init__. split_and!; [|done|].
  - destruct (InteractionContext.__init__ lib payload client) as [e|ctx] eqn:Hbase;
      [eauto|].
    destruct (base_init_returns _ _ _ _ Hbase) as (-> & _).
    rewrite Hg.
    destruct (parse_options_role_without_guild pf client (data_options payload) o
                (∅, None) Hin H8) as [e ->].
    eauto.
  - intros ctx post Hbase Hopts. rewrite Hbase.
    destruct (base_init_returns _ _ _ _ Hbase) as (-> & _).
    rewrite Hg, Hopts. cbn [Slash.parse_options]. by rewrite Hround.
Qed.

Lemma role_option_without_guild_raises_witness :
  Slash.__init__ Sample.float_of Sample.discord
    (Sample.command [Sample.role_option "rank" 5; Sample.int_option "n" 1])
    Sample.client = inl AttributeError.
Proof.
  refine (proj2 (proj2 (role_option_without_guild_raises Sample.float_of
                          Sample.discord
                          (Sample.command [Sample.role_option "rank" 5;
                                           Sample.int_option "n" 1])
                          Sample.client (Sample.role_option "rank" 5)
                          eq_refl _ eq_refl))
            _ [Sample.int_option "n" 1] eq_refl eq_refl).
  left.
Defined.

(** ** The payload builder on a hidden text *)

(** C9: the payload built from content "hi" and hidden=true, everything else
    left at its default, is the mapping with exactly the two keys [content],
    bound to "hi", and [flags], bound to 64. *)
Theorem get_payload_hi_hidden :
  let p := Payload._get_payload (JStr "hi") false JNull true JNull JNull in
  p = {[ "content" := JStr "hi"; "flags" := JInt 64 ]}
  ∧ p !! "content" = Some (JStr "hi")
  ∧ p !! "flags" = Some (JInt 64)
  ∧ dom p = ({[ "content"; "flags" ]} : gset string)
  ∧ size p = 2%nat
  ∧ (∀ k, k ≠ "content" → k ≠ "flags" → p !! k = None).
Proof.
  cbv zeta.
  assert (Hp : Payload._get_payload (JStr "hi") false JNull true JNull JNull
               = <["flags" := JInt 64]> (<["content" := JStr "hi"]> ∅))
    by reflexivity.
  rewrite Hp. split_and!.
  - apply map_eq. intros k.
    destruct (decide (k = "content")) as [->|Hc]; [by simplify_map_eq|].
    destruct (decide (k = "flags")) as [->|Hf]; by simplify_map_eq.
  - by simplify_map_eq.
  - by simplify_map_eq.
  - rewrite !dom_insert_L, dom_empty_L. set_solver.
  - rewrite !map_size_insert_None by by simplify_map_eq.
    by rewrite map_size_empty.
  - intros k Hc Hf. by simplify_map_eq.
Qed.

(** ** What the payload builder stores *)

Lemma lookup_insert_if (b : bool) (k' : string) (v : json)
    (m : gmap string json) (k : string) :
  (if b then <[k' := v]> m else m) !! k
  = if decide (k = k') then (if b then Some v else m !! k) else m !! k.
Proof.
  destruct b; destruct (decide (k = k')) as [->|Hne]; try done.
  - apply lookup_insert_eq.
  - by apply lookup_insert_ne.
Qed.

(** The value [_get_payload] stores under each key. *)
Lemma get_payload_lookup (content : json) (tts : bool) (embed : json)
    (hidden : bool) (am comps : json) (k : string) :
  Payload._get_payload content tts embed hidden am comps !! k
  = if decide (k = "components") then (if truthy comps then Some comps else None)
    else if decide (k = "flags") then (if hidden then Some (JInt 64) else None)
    else if decide (k = "allowed_mentions") then (if truthy am then Some am else None)
    else if decide (k = "embeds") then (if truthy embed then Some embed else None)
    else if decide (k = "tts") then (if tts then Some (JBool true) else None)
    else if decide (k = "content") then (if truthy content then Some content else None)
    else None.
Proof.
  unfold Payload._get_payload. cbv zeta.
  rewrite !lookup_insert_if, lookup_empty.
  repeat case_decide; subst; try done.
  all: by destruct tts.
Qed.

(** X1: whatever the arguments, the payload holds no key besides the six
    field names and no falsy value: a field whose argument is [None], empty,
    zero or false is left out, never sent as null or empty. *)
Theorem get_payload_only_truthy_fields
    (content : json) (tts : bool) (embed : json) (hidden : bool)
    (am comps : json) (k : string) (v : json) :
  Payload._get_payload content tts embed hidden am comps !! k = Some v →
  k ∈ ["content"; "tts"; "embeds"; "allowed_mentions"; "flags"; "components"]
  ∧ truthy v = true.
Proof.
  rewrite get_payload_lookup.
  repeat case_decide; subst.
  - destruct (truthy comps) eqn:Ht; [|done]. intros [= <-]. split; [set_solver|done].
  - destruct hidden; [|done]. intros [= <-]. split; [set_solver|done].
  - destruct (truthy am) eqn:Ht; [|done]. intros [= <-]. split; [set_solver|done].
  - destruct (truthy embed) eqn:Ht; [|done]. intros [= <-]. split; [set_solver|done].
  - destruct tts; [|done]. intros [= <-]. split; [set_solver|done].
  - destruct (truthy content) eqn:Ht; [|done]. intros [= <-]. split; [set_solver|done].
  - done.
Qed.

Lemma get_payload_only_truthy_fields_witness :
  "flags" ∈ ["content"; "tts"; "embeds"; "allowed_mentions"; "flags"; "components"]
  ∧ truthy (JInt 64) = true.
Proof.
  exact (get_payload_only_truthy_fields (JStr "hi") false JNull true JNull JNull
           "flags" (JInt 64) eq_refl).
Defined.

(** X2: an empty string as content, an empty list of embeds and an empty
    list of components give [send] the same payload as leaving the argument
    out. *)
Theorem send_payload_empty_is_absent
    (am : option AllowedMentions → json) (a : SendArgs) :
  let blank (c : option Content) (es : option (list Embed))
            (cs : option (list Component)) :=
    {| content := c; tts := tts a; embed := None; embeds := es;
       file := file a; files := files a; hidden := hidden a;
       allowed_mentions := allowed_mentions a; components := cs |} in
  send_payload am (blank (Some (CStr "")) (Some []) (Some []))
  = send_payload am (blank None None None).
Proof. reflexivity. Qed.

(** X3: the payload of [edit] never carries [tts] or [flags], whatever the
    arguments: an edit cannot turn a message hidden or spoken. *)
Theorem edit_payload_no_tts_no_flags
    (am : option AllowedMentions → json) (a : EditArgs) :
  edit_payload am a !! "tts" = None ∧ edit_payload am a !! "flags" = None.
Proof.
  unfold edit_payload. rewrite !get_payload_lookup. split; by repeat case_decide.
Qed.

(** ** More of the state machine *)

(** X4: [defer] never looks at the two flags: in every state it issues the
    one deferred acknowledgement.  When the transport answers, deferred
    becomes true and responded stays; when the call raises, both flags stay
    as they were.  No attachment is touched. *)
Theorem defer_effect (tr : Transport) (hidden : bool) (w : World) :
  let ack := post_defer_response (defer_payload hidden) in
  issued (defer tr hidden) w = [ack]
  ∧ released (defer tr hidden) w = []
  ∧ (is_Some (tr (calls w) ack) →
       outcome (defer tr hidden) w = inr tt
       ∧ flags_after (defer tr hidden) w = (true, responded (self w)))
  ∧ (tr (calls w) ack = None →
       outcome (defer tr hidden) w = inl (HTTPException ack)
       ∧ flags_after (defer tr hidden) w = flags w).
Proof.
  cbv zeta. unfold defer. fold (defer_payload hidden). unfold_co. simpl.
  destruct (tr (calls w) _) as [r|] eqn:Htr; simpl;
    rewrite drop_length_app, drop_length_nil.
  - split_and!; [done | done | done |]. intros [=].
  - split_and!; [done | done | | done]. intros [? [=]].
Qed.

(** X5: on a context that is deferred and has not responded, [send] without
    attachments replaces the placeholder: it issues the one
    edit-initial-response call, without multipart body, no initial-response
    call and no fetch, and the flags end at (true, true). *)
Theorem send_deferred_no_attachment
    (tr : Transport) (am : option AllowedMentions → json)
    (a : SendArgs) (w : World) (r : json) :
  let fs := file_to_files (file a) (files a) in
  flags w = (true, false) →
  send_args_ok a = true →
  attachments a = [] →
  tr (calls w) (edit_initial_response (send_payload am a) None fs) = Some r →
  issued (send tr am a) w = [edit_initial_response (send_payload am a) None fs]
  ∧ flags_after (send tr am a) w = (true, true)
  ∧ outcome (send tr am a) w = inr {| message_data := r |}
  ∧ released (send tr am a) w = [].
Proof.
  cbv zeta. unfold flags, attachments. intros Hfl Hok Hatt Hr1.
  injection Hfl as Hd Hr.
  apply send_args_ok_guards in Hok as [Hf He].
  apply attachments_none in Hatt as Ht.
  revert Hr1. unfold send, make_form. rewrite Hf, He, Ht.
  unfold_co. simpl. rewrite Hr. simpl. rewrite Hd. simpl.
  intros ->. simpl.
  by rewrite drop_length_app, drop_length_nil, Hd.
Qed.

Lemma send_deferred_no_attachment_witness :
  issued (send Sample.answering Sample.mentions Sample.hi) (Sample.world true false)
    = [edit_initial_response (send_payload Sample.mentions Sample.hi) None None]
  ∧ flags_after (send Sample.answering Sample.mentions Sample.hi)
      (Sample.world true false) = (true, true).
Proof.
  pose proof (send_deferred_no_attachment Sample.answering Sample.mentions
                Sample.hi (Sample.world true false) JNull
                eq_refl eq_refl eq_refl eq_refl) as (Hi & Hf & _).
  exact (conj Hi Hf).
Defined.

(** X6: [delete] with message id "@original" issues the
    delete-initial-response call and with any other id the delete-followup
    call for that id; it issues nothing else, closes nothing and leaves the
    context as it was, whether the call is answered or raises. *)
Theorem delete_targets (tr : Transport) (message_id : MessageId) (w : World) :
  (message_id = MidStr "@original" →
     issued (delete tr message_id) w = [delete_initial_response])
  ∧ (message_id ≠ MidStr "@original" →
     issued (delete tr message_id) w = [delete_followup message_id])
  ∧ self (delete tr message_id w).2 = self w
  ∧ released (delete tr message_id) w = [].
Proof.
  unfold delete.
  destruct (is_original message_id) eqn:Ho.
  - apply is_original_spec in Ho as ->.
    unfold_co. simpl. destruct (tr (calls w) _); simpl;
      rewrite drop_length_app, drop_length_nil; by split_and!.
  - assert (Hne : message_id ≠ MidStr "@original").
    { intros ->. discriminate. }
    unfold_co. simpl. destruct (tr (calls w) _); simpl;
      rewrite drop_length_app, drop_length_nil; by split_and!.
Qed.

(** ** Flags are never reset, logs never rewritten *)

Lemma extends_refl (w : World) : extends w w.
Proof. by unfold extends. Qed.

Lemma extends_trans (w1 w2 w3 : World) :
  extends w1 w2 → extends w2 w3 → extends w1 w3.
Proof.
  intros (Hc & Hf & Hd & Hr & Hg & Hch & Ha) (Hc' & Hf' & Hd' & Hr' & Hg' & Hch' & Ha').
  unfold extends. split_and!; try by etrans.
  - intros H. by apply Hd', Hd.
  - intros H. by apply Hr', Hr.
Qed.

Lemma steady_ret {A} (a : A) : steady (Co.ret a).
Proof. intros w. apply extends_refl. Qed.

Lemma steady_raise {A} (e : Exn) : steady (@Co.raise A e).
Proof. intros w. apply extends_refl. Qed.

Lemma steady_get_self : steady get_self.
Proof. intros w. apply extends_refl. Qed.

Lemma steady_bind {A B} (m : M A) (k : A → M B) :
  steady m → (∀ a, steady (k a)) → steady (Co.bind m k).
Proof.
  intros Hm Hk w. unfold Co.bind. specialize (Hm w).
  destruct (m w) as [[e|a] w1]; simpl in *; [done|].
  eapply extends_trans; [exact Hm | apply Hk].
Qed.

Lemma steady_request (tr : Transport) (c : Call) : steady (request tr c).
Proof.
  intros w. unfold request.
  destruct (tr (calls w) c); simpl; unfold extends; simpl;
    split_and!; try done; by apply prefix_app_r.
Qed.

Lemma steady_set_deferred : steady (set_self (with_deferred true)).
Proof. intros w. unfold extends. simpl. by split_and!. Qed.

Lemma steady_set_responded : steady (set_self (with_responded true)).
Proof. intros w. unfold extends. simpl. by split_and!. Qed.

Lemma steady_close_all (l : list File) : steady (for_each l close).
Proof.
  intros w. rewrite for_each_close. unfold extends. simpl.
  split_and!; try done. by apply prefix_app_r.
Qed.

Lemma steady_when (b : bool) (m : M unit) : steady m → steady (when b m).
Proof. intros Hm. destruct b; [done | apply steady_ret]. Qed.

Ltac steady_step :=
  unfold mbind, M_bind, mret, M_ret;
  first
    [ apply steady_ret | apply steady_raise | apply steady_get_self
    | apply steady_request | apply steady_set_deferred
    | apply steady_set_responded | apply steady_close_all
    | apply steady_when
    | apply steady_bind; [|intros ?]
    | match goal with |- steady (if ?b then _ else _) => destruct b end ].

Lemma steady_defer (tr : Transport) (hidden : bool) : steady (defer tr hidden).
Proof. unfold defer. repeat steady_step. Qed.

Lemma steady_send (tr : Transport) (am : option AllowedMentions → json)
    (a : SendArgs) : steady (send tr am a).
Proof. unfold send. cbv zeta. repeat steady_step. Qed.

Lemma steady_edit (tr : Transport) (am : option AllowedMentions → json)
    (message_id : MessageId) (a : EditArgs) : steady (edit tr am message_id a).
Proof. unfold edit. cbv zeta. repeat steady_step. Qed.

Lemma steady_delete (tr : Transport) (message_id : MessageId) :
  steady (delete tr message_id).
Proof. unfold delete. repeat steady_step. Qed.

(** X7: none of [defer], [send], [edit] and [delete] ever resets a flag or
    rewrites history, whether it returns or raises: after the operation the
    earlier call log and close log are prefixes of the new ones, a flag that
    was true is still true, and guild, channel and author are the same. *)
Theorem operations_extend_world
    (tr : Transport) (am : option AllowedMentions → json) (w : World) :
  (∀ hidden, extends w (defer tr hidden w).2)
  ∧ (∀ a, extends w (send tr am a w).2)
  ∧ (∀ message_id a, extends w (edit tr am message_id a w).2)
  ∧ (∀ message_id, extends w (delete tr message_id w).2).
Proof.
  split_and!; intros.
  - apply steady_defer.
  - apply steady_send.
  - apply steady_edit.
  - apply steady_delete.
Qed.

(** ** How [send] ends *)

Lemma files_truthy_false_list (fs : option (list File)) :
  files_truthy fs = false → files_list fs = [].
Proof. by destruct fs as [[|]|]. Qed.

Ltac split_transport :=
  repeat match goal with
         | |- context [match ?tr ?h ?c with Some _ => _ | None => _ end] =>
             destruct (tr h c) eqn:?; simpl
         end.

(** X8: when [send] raises, the responded flag is what it was and no
    attachment has been closed; the exception is [InvalidArgument] with no
    call issued, or the failure of the last call issued, handed on as it
    is. *)
Theorem send_raise_keeps_responded
    (tr : Transport) (am : option AllowedMentions → json)
    (a : SendArgs) (w : World) (e : Exn) :
  outcome (send tr am a) w = inl e →
  responded (self (send tr am a w).2) = responded (self w)
  ∧ released (send tr am a) w = []
  ∧ ((e = InvalidArgument ∧ issued (send tr am a) w = [])
     ∨ ∃ c, e = HTTPException c ∧ last (issued (send tr am a) w) = Some c).
Proof.
  unfold send.
  destruct (is_not_None (file a) && is_not_None (files a)).
  { unfold_co. simpl. intros [= <-]. rewrite !drop_length_nil. eauto. }
  destruct (is_not_None (embed a) && is_not_None (embeds a)).
  { unfold_co. simpl. intros [= <-]. rewrite !drop_length_nil. eauto. }
  cbv zeta. unfold defer. unfold_co. simpl.
  destruct (responded (self w)) eqn:Hr; simpl.
  - split_transport.
    + destruct (files_truthy _); simpl; [rewrite for_each_close|]; done.
    + intros [= <-]. rewrite drop_length_app, drop_length_nil, Hr.
      split_and!; [done | done |]. right. eauto.
  - destruct (files_truthy (file_to_files (file a) (files a))) eqn:Ht; simpl.
    + split_transport.
      * rewrite for_each_close. done.
      * intros [= <-]. rewrite <- app_assoc, drop_length_app, drop_length_nil.
        split_and!; [done | done |]. right. eauto.
      * intros [= <-]. rewrite drop_length_app, drop_length_nil.
        split_and!; [done | done |]. right. eauto.
    + destruct (deferred (self w)) eqn:Hd; simpl; split_transport; try done.
      * intros [= <-]. rewrite drop_length_app, drop_length_nil.
        split_and!; [done | done |]. right. eauto.
      * intros [= <-]. rewrite <- app_assoc, drop_length_app, drop_length_nil.
        split_and!; [done | done |]. right. eauto.
      * intros [= <-]. rewrite drop_length_app, drop_length_nil.
        split_and!; [done | done |]. right. eauto.
Qed.

Lemma send_raise_keeps_responded_witness :
  responded (self (send Sample.failing Sample.mentions Sample.with_file
                     (Sample.world false false)).2) = false
  ∧ released (send Sample.failing Sample.mentions Sample.with_file)
      (Sample.world false false) = [].
Proof.
  pose proof (send_raise_keeps_responded Sample.failing Sample.mentions
                Sample.with_file (Sample.world false false) _ eq_refl)
    as (Hr & Hrel & _).
  exact (conj Hr Hrel).
Defined.

(** X9: when [send] returns, the arguments passed both guards, responded is
    true, one or two calls were issued, and the attachments carried are the
    files closed, in order. *)
Theorem send_return_responded
    (tr : Transport) (am : option AllowedMentions → json)
    (a : SendArgs) (w : World) (msg : Message) :
  outcome (send tr am a) w = inr msg →
  send_args_ok a = true
  ∧ responded (self (send tr am a w).2) = true
  ∧ (1 ≤ length (issued (send tr am a) w) ≤ 2)%nat
  ∧ released (send tr am a) w = attachments a.
Proof.
  unfold send, send_args_ok, attachments.
  destruct (is_not_None (file a) && is_not_None (files a)); [done|].
  destruct (is_not_None (embed a) && is_not_None (embeds a)); [done|].
  cbv zeta. unfold defer. unfold_co. simpl.
  destruct (responded (self w)) eqn:Hr; simpl.
  - split_transport; [|done].
    destruct (files_truthy _) eqn:Ht; simpl.
    + rewrite for_each_close. simpl. intros _.
      rewrite !drop_length_app, Hr. simpl. split_and!; try done; lia.
    + intros _. rewrite drop_length_app, drop_length_nil, Hr.
      rewrite (files_truthy_false_list _ Ht). simpl. split_and!; try done; lia.
  - destruct (files_truthy (file_to_files (file a) (files a))) eqn:Ht; simpl.
    + split_transport; try done.
      rewrite for_each_close. simpl. intros _.
      rewrite <- app_assoc, !drop_length_app. simpl. split_and!; try done; lia.
    + rewrite (files_truthy_false_list _ Ht).
      destruct (deferred (self w)) eqn:Hd; simpl; split_transport; try done.
      * intros _. rewrite drop_length_app, drop_length_nil. simpl.
        split_and!; try done; lia.
      * intros _. rewrite <- app_assoc, drop_length_app, drop_length_nil. simpl.
        split_and!; try done; lia.
Qed.

Lemma send_return_responded_witness :
  responded (self (send Sample.answering Sample.mentions Sample.with_file
                     (Sample.world false false)).2) = true
  ∧ released (send Sample.answering Sample.mentions Sample.with_file)
      (Sample.world false false) = [Sample.map_png].
Proof.
  pose proof (send_return_responded Sample.answering Sample.mentions
                Sample.with_file (Sample.world false false) _ eq_refl)
    as (_ & Hr & _ & Hrel).
  exact (conj Hr Hrel).
Defined.

(** ** Sequences of operations *)

Lemma send_returns_responded
    (tr : Transport) (am : option AllowedMentions → json)
    (a : SendArgs) (w : World) (msg : Message) :
  outcome (send tr am a) w = inr msg →
  responded (self (send tr am a w).2) = true.
Proof.
  unfold send.
  destruct (is_not_None (file a) && is_not_None (files a)); [done|].
  destruct (is_not_None (embed a) && is_not_None (embeds a)); [done|].
  cbv zeta. unfold defer. unfold_co. simpl.
  destruct (responded (self w)) eqn:Hr; simpl.
  - split_transport; [|done].
    destruct (files_truthy _); simpl; [rewrite for_each_close|]; done.
  - destruct (files_truthy (file_to_files (file a) (files a))) eqn:Ht; simpl.
    + split_transport; try done. by rewrite for_each_close.
    + destruct (deferred (self w)); simpl; by split_transport.
Qed.

Lemma send_responded_followup
    (tr : Transport) (am : option AllowedMentions → json)
    (a : SendArgs) (w : World) :
  responded (self w) = true →
  send_args_ok a = true →
  issued (send tr am a) w
    = [post_followup (send_payload am a)
         (make_form (file_to_files (file a) (files a)) (send_payload am a))
         (file_to_files (file a) (files a))]
  ∧ flags_after (send tr am a) w = flags w.
Proof.
  intros Hr Hok.
  apply send_args_ok_guards in Hok as [Hf He].
  unfold send. rewrite Hf, He.
  unfold_co. simpl. rewrite Hr. simpl.
  destruct (tr (calls w) _) as [resp|]; simpl.
  - destruct (files_truthy _); simpl.
    + rewrite for_each_close. simpl. by rewrite drop_length_app, Hr.
    + by rewrite drop_length_app, Hr.
  - by rewrite drop_length_app, Hr.
Qed.

(** X10: the first [send] that returns is the last one to talk to the
    initial response: whatever the state it started from, any [send] that
    follows it and passes the guards issues exactly one follow-up call and
    changes no flag. *)
Theorem send_then_send_is_followup
    (tr tr' : Transport) (am : option AllowedMentions → json)
    (a1 a2 : SendArgs) (w : World) (msg : Message) :
  let w1 := (send tr am a1 w).2 in
  let fs := file_to_files (file a2) (files a2) in
  outcome (send tr am a1) w = inr msg →
  send_args_ok a2 = true →
  issued (send tr' am a2) w1
    = [post_followup (send_payload am a2) (make_form fs (send_payload am a2)) fs]
  ∧ flags_after (send tr' am a2) w1 = flags w1.
Proof.
  cbv zeta. intros Hret Hok.
  apply send_responded_followup; [|done].
  by eapply send_returns_responded.
Qed.

Lemma send_then_send_is_followup_witness :
  issued (send Sample.answering Sample.mentions Sample.with_file)
    (send Sample.answering Sample.mentions Sample.hi (Sample.world false false)).2
  = [post_followup (send_payload Sample.mentions Sample.with_file)
       (Some (_files_to_form [Sample.map_png]
                (send_payload Sample.mentions Sample.with_file)))
       (Some [Sample.map_png])].
Proof.
  exact (proj1 (send_then_send_is_followup Sample.answering Sample.answering
                  Sample.mentions Sample.hi Sample.with_file
                  (Sample.world false false) _ eq_refl eq_refl)).
Defined.

(** X11: the usual pair, [defer] and then [send] without attachments, on a
    context that has not responded: over a transport that answers, the two
    calls issued are the deferred acknowledgement and the edit of the
    initial response, without multipart body, and the flags end at
    (true, true). *)
Theorem defer_then_send
    (tr : Transport) (am : option AllowedMentions → json)
    (h : bool) (a : SendArgs) (w : World) :
  let fs := file_to_files (file a) (files a) in
  responded (self w) = false →
  send_args_ok a = true →
  attachments a = [] →
  answers tr →
  issued (defer tr h;; send tr am a) w
    = [post_defer_response (defer_payload h);
       edit_initial_response (send_payload am a) None fs]
  ∧ flags_after (defer tr h;; send tr am a) w = (true, true)
  ∧ released (defer tr h;; send tr am a) w = [].
Proof.
  cbv zeta. unfold attachments. intros Hr Hok Hatt Hall.
  apply send_args_ok_guards in Hok as [Hf He].
  apply attachments_none in Hatt as Ht.
  unfold send, defer, make_form. rewrite Hf, He, Ht.
  fold (defer_payload h). unfold_co. simpl.
  destruct (Hall (calls w) (post_defer_response (defer_payload h))) as [r1 ->].
  simpl. rewrite Hr. simpl.
  match goal with
  | |- context [tr ?hist ?c] => destruct (Hall hist c) as [r2 ->]
  end. simpl.
  by rewrite <- app_assoc, drop_length_app, drop_length_nil.
Qed.

Lemma defer_then_send_witness :
  issued (defer Sample.answering true;;
          send Sample.answering Sample.mentions Sample.hi)
    (Sample.world false false)
  = [post_defer_response (defer_payload true);
     edit_initial_response (send_payload Sample.mentions Sample.hi) None None].
Proof.
  refine (proj1 (defer_then_send Sample.answering Sample.mentions true Sample.hi
                   (Sample.world false false) eq_refl eq_refl eq_refl _)).
  intros hist c. exists JNull. reflexivity.
Defined.

(** X12: a fetch that fails after the initial response went out leaves the
    context as if nothing had been sent: both calls were issued, [send]
    raises the failure of the fetch, the flags are still (false, false),
    and a [send] tried again starts by posting an initial response once
    more. *)
Theorem send_fetch_failure_reposts
    (tr tr' : Transport) (am : option AllowedMentions → json)
    (a : SendArgs) (w : World) (r1 : json) :
  let post := post_initial_response (send_payload am a) in
  let w1 := (send tr am a w).2 in
  flags w = (false, false) →
  send_args_ok a = true →
  attachments a = [] →
  tr (calls w) post = Some r1 →
  tr (calls w ++ [post]) get_initial_response = None →
  outcome (send tr am a) w = inl (HTTPException get_initial_response)
  ∧ issued (send tr am a) w = [post; get_initial_response]
  ∧ flags w1 = (false, false)
  ∧ head (issued (send tr' am a) w1) = Some post.
Proof.
  cbv zeta. unfold flags, attachments. intros Hfl Hok Hatt H1 H2.
  injection Hfl as Hd Hr.
  apply send_args_ok_guards in Hok as [Hf He].
  apply attachments_none in Hatt as Ht.
  unfold send. rewrite Hf, He, Ht.
  unfold_co. simpl. rewrite Hr. simpl. rewrite Hd. simpl.
  rewrite H1. simpl. rewrite H2. simpl.
  rewrite Hr. simpl. rewrite Hd. simpl.
  split_and!; try done.
  - by rewrite <- app_assoc, drop_length_app.
  - set (hist := (calls w ++ _) ++ _).
    destruct (tr' _ _); simpl; [destruct (tr' _ _); simpl|].
    all: by rewrite <- ?(app_assoc hist), drop_length_app.
Qed.

Lemma send_fetch_failure_reposts_witness :
  outcome (send (λ hist _, match hist with [] => Some JNull | _ => None end)
             Sample.mentions Sample.hi) (Sample.world false false)
  = inl (HTTPException get_initial_response).
Proof.
  exact (proj1 (send_fetch_failure_reposts
                  (λ hist _, match hist with [] => Some JNull | _ => None end)
                  Sample.answering Sample.mentions Sample.hi
                  (Sample.world false false) JNull
                  eq_refl eq_refl eq_refl eq_refl eq_refl)).
Defined.

(** ** The component variant: [defer_update] and [update] *)

Lemma components_for_each_close (l : list File) (w : Components.World) :
  Components.for_each l Components.close w
  = (inr tt, {| Components.self := Components.self w;
                Components.calls := Components.calls w;
                Components.closed := Components.closed w ++ l |}).
Proof.
  revert w. induction l as [|f l IH]; intros w.
  - simpl. unfold Components.ret. rewrite app_nil_r. by destruct w.
  - simpl. unfold Components.bind, Components.close. rewrite IH. simpl.
    by rewrite <- app_assoc.
Qed.

Lemma update_args_ok_guards (a : UpdateArgs) :
  Components.args_ok a = true →
  is_not_None (u_file a) && is_not_None (u_files a) = false
  ∧ is_not_None (u_embed a) && is_not_None (u_embeds a) = false.
Proof.
  unfold Components.args_ok. intros [H1 H2]%andb_true_iff.
  by apply negb_true_iff in H1, H2.
Qed.

Ltac unfold_cc :=
  unfold mbind, Components.M_bind, mret, Components.M_ret, Components.bind,
    Components.ret, Components.raise, Components.when, Components.get_self,
    Components.set_flags, Components.request, Components.channel_id_attr,
    Components.issued, Components.released, Components.flags_after,
    Components.flags, Components.outcome.

(** X13: on a fresh component context, [update] without attachments issues
    the one initial-components-response call, with no fetch after it, and
    leaves the flags at (false, true). *)
Theorem update_fresh_no_attachment
    (tr : Components.Transport) (am : option AllowedMentions → json)
    (mid : Message → json) (a : UpdateArgs) (w : Components.World) (r : json) :
  let call :=
    Components.post_initial_components_response (Components.update_payload am a) in
  Components.flags w = (false, false) →
  Components.args_ok a = true →
  Components.attachments a = [] →
  tr (Components.calls w) call = Some r →
  Components.issued (Components.update tr am mid a) w = [call]
  ∧ Components.flags_after (Components.update tr am mid a) w = (false, true)
  ∧ Components.outcome (Components.update tr am mid a) w = inr tt
  ∧ Components.released (Components.update tr am mid a) w = [].
Proof.
  cbv zeta. unfold Components.flags, Components.attachments.
  intros Hfl Hok Hatt Hr1. injection Hfl as Hd Hr.
  apply update_args_ok_guards in Hok as [Hf He].
  apply attachments_none in Hatt as Ht.
  unfold Components.update. rewrite Hf, He, Ht.
  unfold_cc. simpl. rewrite Hr. simpl. rewrite Hd. simpl. rewrite Hr1. simpl.
  by rewrite drop_length_app, drop_length_nil, Hd.
Qed.

(** X14: with attachments, on a component context that has not responded
    and whose channel was found, [update] over a transport that answers
    issues the deferred acknowledgement of type 6, never marked hidden, and
    then the edit of the hosting message with the multipart body; the flags
    end at (true, true) and the attachments are closed, in order. *)
Theorem update_attachments_edit_message
    (tr : Components.Transport) (am : option AllowedMentions → json)
    (mid : Message → json) (a : UpdateArgs) (w : Components.World) (ch : Channel) :
  let fs := Components.attachments a in
  let p := Components.update_payload am a in
  let ctx := Components.self w in
  responded (Components.interaction ctx) = false →
  channel (Components.interaction ctx) = Some ch →
  Components.args_ok a = true →
  Components.attachments a ≠ [] →
  Components.answers tr →
  Components.issued (Components.update tr am mid a) w
    = [Components.http (post_defer_response {[ "type" := JInt 6 ]});
       Components.edit_message (channel_id ch) (mid (Components.message ctx)) p
         (Some (_files_to_form fs p)) (Some fs)]
  ∧ Components.flags_after (Components.update tr am mid a) w = (true, true)
  ∧ Components.outcome (Components.update tr am mid a) w = inr tt
  ∧ Components.released (Components.update tr am mid a) w = fs.
Proof.
  cbv zeta. unfold Components.attachments. intros Hr Hch Hok Hatt Hall.
  apply update_args_ok_guards in Hok as [Hf He].
  destruct (attachments_some _ Hatt) as [Ht Hfs].
  unfold Components.update, Components.defer_update, make_form.
  rewrite Hf, He, Ht.
  unfold_cc. simpl. rewrite Hr. simpl.
  destruct (Hall (Components.calls w)
              (Components.http (post_defer_response {[ "type" := JInt 6 ]})))
    as [r1 ->]. simpl. rewrite Hch. simpl.
  match goal with
  | |- context [tr ?hist ?c] => destruct (Hall hist c) as [r2 ->]
  end. simpl.
  rewrite components_for_each_close. simpl.
  rewrite <- app_assoc, !drop_length_app. by rewrite <- Hfs.
Qed.

(** X15: when the channel of the context was not found, [update] cannot
    take the edit path: on a context that has not responded and is deferred
    or carries attachments, it raises [AttributeError] before any edit of the
    message is issued.  With attachments the deferred acknowledgement has
    gone out by then, so the flags end at (true, false); no attachment is
    closed. *)
Theorem update_without_channel_raises
    (tr : Components.Transport) (am : option AllowedMentions → json)
    (mid : Message → json) (a : UpdateArgs) (w : Components.World) :
  let ctx := Components.interaction (Components.self w) in
  responded ctx = false →
  channel ctx = None →
  Components.args_ok a = true →
  Components.answers tr →
  (Components.attachments a ≠ [] →
     Components.outcome (Components.update tr am mid a) w
       = inl Components.AttributeError
     ∧ Components.issued (Components.update tr am mid a) w
       = [Components.http (post_defer_response {[ "type" := JInt 6 ]})]
     ∧ Components.flags_after (Components.update tr am mid a) w = (true, false)
     ∧ Components.released (Components.update tr am mid a) w = [])
  ∧ (Components.attachments a = [] → deferred ctx = true →
     Components.outcome (Components.update tr am mid a) w
       = inl Components.AttributeError
     ∧ Components.issued (Components.update tr am mid a) w = []
     ∧ Components.flags_after (Components.update tr am mid a) w = (true, false)
     ∧ Components.released (Components.update tr am mid a) w = []).
Proof.
  cbv zeta. unfold Components.attachments. intros Hr Hch Hok Hall.
  apply update_args_ok_guards in Hok as [Hf He].
  split.
  - intros Hatt. destruct (attachments_some _ Hatt) as [Ht Hfs].
    unfold Components.update, Components.defer_update.
    rewrite Hf, He, Ht.
    unfold_cc. simpl. rewrite Hr. simpl.
    destruct (Hall (Components.calls w)
                (Components.http (post_defer_response {[ "type" := JInt 6 ]})))
      as [r1 ->]. simpl. rewrite Hch. simpl.
    by rewrite drop_length_app, drop_length_nil, Hr.
  - intros Hatt Hd. apply attachments_none in Hatt as Ht.
    unfold Components.update. rewrite Hf, He, Ht.
    unfold_cc. simpl. rewrite Hr. simpl. rewrite Hd. simpl. rewrite Hch. simpl.
    by rewrite !drop_length_nil, Hr, Hd.
Qed.

(** X16: once responded=true, [update] with arguments that pass the guards
    issues exactly one follow-up call, answered or not, and changes no flag;
    and an [update] that supplies both [file] and [files], or both [embed]
    and [embeds], raises [InvalidArgument] and leaves the world as it was. *)
Theorem update_followup_and_guards
    (tr : Components.Transport) (am : option AllowedMentions → json)
    (mid : Message → json) (a : UpdateArgs) (w : Components.World) :
  let fs := file_to_files (u_file a) (u_files a) in
  let p := Components.update_payload am a in
  (Components.args_ok a = true →
   responded (Components.interaction (Components.self w)) = true →
     Components.issued (Components.update tr am mid a) w
       = [Components.http (post_followup p (make_form fs p) fs)]
     ∧ Components.flags_after (Components.update tr am mid a) w
       = Components.flags w)
  ∧ (Components.args_ok a = false →
     Components.update tr am mid a w = (inl Components.InvalidArgument, w)).
Proof.
  cbv zeta. split.
  - intros Hok Hr. apply update_args_ok_guards in Hok as [Hf He].
    unfold Components.update. rewrite Hf, He.
    unfold_cc. simpl. rewrite Hr. simpl.
    destruct (tr (Components.calls w) _) as [resp|]; simpl.
    + destruct (files_truthy _); simpl.
      * rewrite components_for_each_close. simpl. by rewrite drop_length_app, Hr.
      * by rewrite drop_length_app, Hr.
    + by rewrite drop_length_app, Hr.
  - unfold Components.args_ok, Components.update.
    destruct (is_not_None (u_file a) && is_not_None (u_files a)); [done|].
    destruct (is_not_None (u_embed a) && is_not_None (u_embeds a)); [done|].
    discriminate.
Qed.

Lemma update_fresh_no_attachment_witness :
  Components.issued
    (Components.update SampleMore.answering Sample.mentions SampleMore.message_id
       SampleMore.text)
    (SampleMore.click None false false)
  = [Components.post_initial_components_response
       (Components.update_payload Sample.mentions SampleMore.text)].
Proof.
  exact (proj1 (update_fresh_no_attachment SampleMore.answering Sample.mentions
                  SampleMore.message_id SampleMore.text
                  (SampleMore.click None false false) JNull
                  eq_refl eq_refl eq_refl eq_refl)).
Defined.

Lemma update_attachments_edit_message_witness :
  Components.flags_after
    (Components.update SampleMore.answering Sample.mentions SampleMore.message_id
       SampleMore.picture)
    (SampleMore.click (Some {| channel_id := 7 |}) false false)
  = (true, true).
Proof.
  refine (proj1 (proj2 (update_attachments_edit_message SampleMore.answering
                          Sample.mentions SampleMore.message_id SampleMore.picture
                          (SampleMore.click (Some {| channel_id := 7 |}) false false)
                          {| channel_id := 7 |} eq_refl eq_refl eq_refl _ _))).
  - discriminate.
  - intros hist c. exists JNull. reflexivity.
Defined.

Lemma update_without_channel_raises_witness :
  Components.outcome
    (Components.update SampleMore.answering Sample.mentions SampleMore.message_id
       SampleMore.picture)
    (SampleMore.click None false false)
  = inl Components.AttributeError.
Proof.
  refine (proj1 (proj1 (update_without_channel_raises SampleMore.answering
                          Sample.mentions SampleMore.message_id SampleMore.picture
                          (SampleMore.click None false false)
                          eq_refl eq_refl eq_refl _) _)).
  - intros hist c. exists JNull. reflexivity.
  - discriminate.
Defined.

(** ** Permission levels *)

Lemma id_listed_elem_of (i : Z) (l : list Z) :
  Perm.id_listed i l = true ↔ i ∈ l.
Proof.
  induction l as [|j l IH]; simpl.
  - split; [done | by intros ?%elem_of_nil].
  - rewrite elem_of_cons. destruct (i =? j) eqn:E.
    + apply Z.eqb_eq in E. split; [by left | done].
    + apply Z.eqb_neq in E. rewrite IH. split; [by right|].
      by intros [?|?].
Qed.

Lemma any_administrator_elem_of (rs : list Perm.PermRole) :
  Perm.any_administrator rs = true ↔ ∃ r, r ∈ rs ∧ Perm.administrator r = true.
Proof.
  induction rs as [|r rs IH]; simpl.
  - split; [done|]. intros (r & Hr%elem_of_nil & _). done.
  - destruct (Perm.administrator r) eqn:E.
    + split; [|done]. intros _. exists r. split; [by left | done].
    + rewrite IH. split.
      * intros (r' & Hin & Ha). exists r'. split; [by right | done].
      * intros (r' & Hin & Ha). apply elem_of_cons in Hin as [->|Hin].
        -- congruence.
        -- eauto.
Qed.

Lemma row_listed_blacklisted (i : Z) (rows : list Perm.Row) :
  Perm.row_listed i rows = true ↔ Perm.blacklisted rows i.
Proof.
  unfold Perm.blacklisted. induction rows as [|r rows IH]; simpl.
  - split; [done|]. intros (r & Hr%elem_of_nil & _). done.
  - destruct (Perm.column0 r =? i) eqn:E.
    + apply Z.eqb_eq in E. split; [|done]. intros _. exists r. split; [by left|done].
    + apply Z.eqb_neq in E. rewrite IH. split.
      * intros (r' & Hin & Ha). exists r'. split; [by right | done].
      * intros (r' & Hin & Ha). apply elem_of_cons in Hin as [->|Hin].
        -- done.
        -- eauto.
Qed.

Lemma has_admin_role_member (a : Perm.PermAuthor) (rs : list Perm.PermRole) :
  Perm.roles a = Some rs →
  Perm.any_administrator rs = true ↔ Perm.has_admin_role a.
Proof.
  intros Hrs. rewrite any_administrator_elem_of. unfold Perm.has_admin_role.
  rewrite Hrs. split.
  - intros (r & Hin & Ha). eauto.
  - intros (rs' & r & [= <-] & Hin & Ha). eauto.
Qed.

(** The level [check_perm] gives a guild member, by cases. *)
Lemma check_perm_member (cfg : Perm.Config) (bl : list Perm.Row)
    (a : Perm.PermAuthor) (rs : list Perm.PermRole) :
  Perm.roles a = Some rs →
  let i := Perm.author_id a in
  (i ∈ Perm.Owner cfg ∧ Perm.check_perm cfg bl a = (inr 1, []))
  ∨ ((i ∉ Perm.Owner cfg) ∧ i ∈ Perm.SubOwner cfg
     ∧ Perm.check_perm cfg bl a = (inr 2, []))
  ∨ ((i ∉ Perm.Owner cfg) ∧ (i ∉ Perm.SubOwner cfg) ∧ Perm.has_admin_role a
     ∧ Perm.check_perm cfg bl a = (inr 3, []))
  ∨ ((i ∉ Perm.Owner cfg) ∧ (i ∉ Perm.SubOwner cfg) ∧ ¬ Perm.has_admin_role a
     ∧ Perm.blacklisted bl i
     ∧ Perm.check_perm cfg bl a = (inr 9, (Perm.is_banned bl i).2))
  ∨ ((i ∉ Perm.Owner cfg) ∧ (i ∉ Perm.SubOwner cfg) ∧ ¬ Perm.has_admin_role a
     ∧ ¬ Perm.blacklisted bl i
     ∧ Perm.check_perm cfg bl a = (inr 4, (Perm.is_banned bl i).2)).
Proof.
  intros Hrs. cbv zeta.
  pose proof (id_listed_elem_of (Perm.author_id a) (Perm.Owner cfg)) as Ho.
  pose proof (id_listed_elem_of (Perm.author_id a) (Perm.SubOwner cfg)) as Hs.
  pose proof (has_admin_role_member a rs Hrs) as Ha.
  pose proof (row_listed_blacklisted (Perm.author_id a) bl) as Hb.
  unfold Perm.check_perm, Perm.is_owner, Perm.is_subowner, Perm.is_admin,
    Perm.is_banned.
  rewrite Hrs. simpl.
  destruct (Perm.id_listed _ (Perm.Owner cfg)).
  { left. split; [by apply Ho | done]. }
  assert (Perm.author_id a ∉ Perm.Owner cfg) by (intros ?%Ho; done).
  destruct (Perm.id_listed _ (Perm.SubOwner cfg)).
  { right. left. split_and!; [done | by apply Hs | done]. }
  assert (Perm.author_id a ∉ Perm.SubOwner cfg) by (intros ?%Hs; done).
  destruct (Perm.any_administrator rs).
  { right. right. left. split_and!; [done | done | by apply Ha | done]. }
  assert (¬ Perm.has_admin_role a) by (intros ?%Ha; done).
  destruct (Perm.row_listed _ bl).
  - right. right. right. left. split_and!; [done | done | done | by apply Hb | done].
  - right. right. right. right. split_and!; [done | done | done | | done].
    intros ?%Hb. done.
Qed.

(** X17: for a guild member [check_perm] returns one of the five levels 1,
    2, 3, 4, 9, and the first matching rule decides: 1 for a listed owner;
    2 for a listed sub-owner who is no owner; 3 for a holder of an
    administrator role who is neither; 9 for a blacklisted member who is none
    of these; 4 for everybody else. *)
Theorem check_perm_levels (cfg : Perm.Config) (bl : list Perm.Row)
    (a : Perm.PermAuthor) (rs : list Perm.PermRole) :
  Perm.roles a = Some rs →
  let i := Perm.author_id a in
  let privileged :=
    i ∈ Perm.Owner cfg ∨ i ∈ Perm.SubOwner cfg ∨ Perm.has_admin_role a in
  ∃ level,
    (Perm.check_perm cfg bl a).1 = inr level
    ∧ level ∈ [1; 2; 3; 4; 9]
    ∧ (level = 1 ↔ i ∈ Perm.Owner cfg)
    ∧ (level = 2 ↔ (i ∉ Perm.Owner cfg) ∧ i ∈ Perm.SubOwner cfg)
    ∧ (level = 3 ↔ (i ∉ Perm.Owner cfg) ∧ (i ∉ Perm.SubOwner cfg)
                   ∧ Perm.has_admin_role a)
    ∧ (level = 9 ↔ ¬ privileged ∧ Perm.blacklisted bl i)
    ∧ (level = 4 ↔ ¬ privileged ∧ ¬ Perm.blacklisted bl i).
Proof.
  intros Hrs. cbv zeta.
  destruct (check_perm_member cfg bl a rs Hrs)
    as [(Ho & ->)|[(Ho & Hs & ->)|[(Ho & Hs & Ha & ->)
       |[(Ho & Hs & Ha & Hb & ->)|(Ho & Hs & Ha & Hb & ->)]]]]; simpl.
  all: eexists; split; [reflexivity|].
  all: split; [by repeat constructor|].
  all: split_and!; (split; [first [done | intros _; tauto]
                           | first [done | intros; exfalso; tauto]]).
Qed.

Lemma check_perm_levels_witness :
  ∃ level,
    (Perm.check_perm SampleMore.config SampleMore.blacklist
       (SampleMore.member 8 false)).1 = inr level
    ∧ level ∈ [1; 2; 3; 4; 9].
Proof.
  destruct (check_perm_levels SampleMore.config SampleMore.blacklist
              (SampleMore.member 8 false) _ eq_refl) as (level & Hl & Hin & _).
  exists level. exact (conj Hl Hin).
Defined.

(** X18: the blacklist only binds members without privilege.  The check
    [permission(4)], the level of an ordinary user, turns away exactly the
    blacklisted members who are neither owner, sub-owner nor administrator; a
    blacklisted owner, sub-owner or administrator passes it. *)
Theorem permission_everyone_rejects_banned
    (cfg : Perm.Config) (bl : list Perm.Row)
    (a : Perm.PermAuthor) (rs : list Perm.PermRole) :
  Perm.roles a = Some rs →
  let i := Perm.author_id a in
  ((Perm.permission 4 cfg bl a).1 = inr false
   ↔ Perm.blacklisted bl i
     ∧ ¬ (i ∈ Perm.Owner cfg ∨ i ∈ Perm.SubOwner cfg ∨ Perm.has_admin_role a))
  ∧ ((Perm.permission 4 cfg bl a).1 = inr false
     ∨ (Perm.permission 4 cfg bl a).1 = inr true).
Proof.
  intros Hrs. cbv zeta. unfold Perm.permission.
  destruct (check_perm_member cfg bl a rs Hrs)
    as [(Ho & ->)|[(Ho & Hs & ->)|[(Ho & Hs & Ha & ->)
       |[(Ho & Hs & Ha & Hb & ->)|(Ho & Hs & Ha & Hb & ->)]]]]; simpl.
  all: split; [|by (left + right)].
  all: split; [try done | try tauto].
  tauto.
Qed.

Lemma permission_everyone_rejects_banned_witness :
  (Perm.permission 4 SampleMore.config SampleMore.blacklist
     (SampleMore.member 2 false)).1 = inr true
  ∧ (Perm.permission 4 SampleMore.config SampleMore.blacklist
       (SampleMore.member 8 false)).1 = inr false.
Proof.
  split.
  - destruct (proj2 (permission_everyone_rejects_banned SampleMore.config
                       SampleMore.blacklist (SampleMore.member 2 false) _ eq_refl))
      as [H|H]; [discriminate H | exact H].
  - reflexivity.
Defined.

(** X19: [permission] is monotone in the level asked for: a member accepted
    at one level is accepted at every higher one.  Level 9 and above accept
    every member, the blacklisted too; a level below 1 accepts nobody. *)
Theorem permission_monotone (cfg : Perm.Config) (bl : list Perm.Row)
    (a : Perm.PermAuthor) (rs : list Perm.PermRole) (p q : Z) :
  Perm.roles a = Some rs →
  p ≤ q →
  ((Perm.permission p cfg bl a).1 = inr true →
   (Perm.permission q cfg bl a).1 = inr true)
  ∧ (9 ≤ q → (Perm.permission q cfg bl a).1 = inr true)
  ∧ (p < 1 → (Perm.permission p cfg bl a).1 = inr false).
Proof.
  intros Hrs Hpq. unfold Perm.permission.
  destruct (check_perm_member cfg bl a rs Hrs)
    as [(Ho & ->)|[(Ho & Hs & ->)|[(Ho & Hs & Ha & ->)
       |[(Ho & Hs & Ha & Hb & ->)|(Ho & Hs & Ha & Hb & ->)]]]]; simpl.
  all: rewrite ?Z.geb_leb.
  all: split_and!; intros; f_equal;
    repeat match goal with
           | H : inr (_ <=? _) = inr true |- _ =>
               injection H as H; apply Z.leb_le in H
           end;
    first [apply Z.leb_le | apply Z.leb_gt]; lia.
Qed.

Lemma permission_monotone_witness :
  (Perm.permission 9 SampleMore.config SampleMore.blacklist
     (SampleMore.member 8 false)).1 = inr true.
Proof.
  refine (proj1 (proj2 (permission_monotone SampleMore.config SampleMore.blacklist
                          (SampleMore.member 8 false) _ 9 9 eq_refl _)) _); lia.
Defined.

(** X20: [check_perm] goes to the database only when the three earlier
    rules have all failed: for an owner, a sub-owner or an administrator
    nothing is done to it, and otherwise the table is fetched once and the
    connection is closed, in the order connect, execute, fetchall, close. *)
Theorem check_perm_database (cfg : Perm.Config) (bl : list Perm.Row)
    (a : Perm.PermAuthor) (rs : list Perm.PermRole) :
  Perm.roles a = Some rs →
  let i := Perm.author_id a in
  let privileged :=
    i ∈ Perm.Owner cfg ∨ i ∈ Perm.SubOwner cfg ∨ Perm.has_admin_role a in
  (privileged → (Perm.check_perm cfg bl a).2 = [])
  ∧ (¬ privileged →
     (Perm.check_perm cfg bl a).2
     = [Perm.connect; Perm.execute "select * from BLACKLIST"; Perm.fetchall;
        Perm.close_connection]).
Proof.
  intros Hrs. cbv zeta.
  destruct (check_perm_member cfg bl a rs Hrs)
    as [(Ho & ->)|[(Ho & Hs & ->)|[(Ho & Hs & Ha & ->)
       |[(Ho & Hs & Ha & Hb & ->)|(Ho & Hs & Ha & Hb & ->)]]]]; simpl.
  all: split; [try done | try tauto]; tauto.
Qed.

Lemma check_perm_database_witness :
  (Perm.check_perm SampleMore.config SampleMore.blacklist
     (SampleMore.member 2 false)).2 = [].
Proof.
  refine (proj1 (check_perm_database SampleMore.config SampleMore.blacklist
                   (SampleMore.member 2 false) _ eq_refl) _).
  left. by right; left.
Defined.

(** X21: an author without roles, which is what the context holds outside a
    guild, gets through [check_perm] only as owner or sub-owner: for anybody
    else the administrator rule raises [AttributeError], the blacklist is
    never consulted, and [permission] raises the same at every level. *)
Theorem check_perm_without_roles (cfg : Perm.Config) (bl : list Perm.Row)
    (a : Perm.PermAuthor) (p : Z) :
  Perm.roles a = None →
  let i := Perm.author_id a in
  (i ∈ Perm.Owner cfg → Perm.check_perm cfg bl a = (inr 1, []))
  ∧ ((i ∉ Perm.Owner cfg) → i ∈ Perm.SubOwner cfg →
     Perm.check_perm cfg bl a = (inr 2, []))
  ∧ ((i ∉ Perm.Owner cfg) → (i ∉ Perm.SubOwner cfg) →
     Perm.check_perm cfg bl a = (inl AttributeError, [])
     ∧ Perm.permission p cfg bl a = (inl AttributeError, [])).
Proof.
  intros Hrs. cbv zeta.
  pose proof (id_listed_elem_of (Perm.author_id a) (Perm.Owner cfg)) as Ho.
  pose proof (id_listed_elem_of (Perm.author_id a) (Perm.SubOwner cfg)) as Hs.
  unfold Perm.permission, Perm.check_perm, Perm.is_owner, Perm.is_subowner,
    Perm.is_admin.
  rewrite Hrs.
  destruct (Perm.id_listed _ (Perm.Owner cfg)).
  { split_and!; [done | |]; intros Hno; exfalso; by apply Hno, Ho. }
  destruct (Perm.id_listed _ (Perm.SubOwner cfg)).
  { split_and!; [by intros ?%Ho | done |].
    intros _ Hno. exfalso. by apply Hno, Hs. }
  split_and!; [by intros ?%Ho | by intros _ ?%Hs | done].
Qed.

Lemma check_perm_without_roles_witness :
  Perm.permission 4 SampleMore.config SampleMore.blacklist (SampleMore.user 5)
  = (inl AttributeError, []).
Proof.
  refine (proj2 (proj2 (proj2 (check_perm_without_roles SampleMore.config
                                 SampleMore.blacklist (SampleMore.user 5) 4
                                 eq_refl)) _ _)).
  - intros Hin. repeat (apply elem_of_cons in Hin as [Hin|Hin]; [discriminate Hin|]).
    by apply elem_of_nil in Hin.
  - intros Hin. repeat (apply elem_of_cons in Hin as [Hin|Hin]; [discriminate Hin|]).
    by apply elem_of_nil in Hin.
Defined.

(** ** Construction of the contexts *)

Lemma parse_options_total (pf : json → Exn + Z) (cl : Client) (g : option Guild)
    (opts : list RawOption) (st : gmap string OptionValue * option Mentioned) :
  (g = None → ∀ o, o ∈ opts → option_type o ≠ 8) →
  (∀ o, o ∈ opts → option_type o = 10 → ∃ bits, pf (option_value o) = inr bits) →
  ∃ st', Slash.parse_options pf cl g opts st = inr st'.
Proof.
  revert st. induction opts as [|o opts IH]; intros st Hrole Hfloat; simpl.
  - eauto.
  - assert (Hstep : ∃ st1, Slash.set_option pf cl g o st = inr st1).
    { destruct st as [m mem]. unfold Slash.set_option.
      destruct (option_type o =? 3); [eauto|].
      destruct (option_type o =? 4); [eauto|].
      destruct (option_type o =? 5); [eauto|].
      destruct (option_type o =? 6); [destruct g; eauto|].
      destruct ((option_type o =? 7) && is_not_None g) eqn:E7.
      { destruct g; [eauto | by rewrite andb_false_r in E7]. }
      destruct (option_type o =? 8) eqn:E8.
      { apply Z.eqb_eq in E8. destruct g as [gd|]; [eauto|].
        exfalso. eapply Hrole; [done | by left | done]. }
      destruct (option_type o =? 10) eqn:E10; [|eauto].
      apply Z.eqb_eq in E10.
      destruct (Hfloat o) as [bits ->]; [by left | done | eauto]. }
    destruct Hstep as [st1 ->].
    apply IH.
    + intros Hg o' Ho'. apply Hrole; [done | by right].
    + intros o' Ho'. apply Hfloat. by right.
Qed.

(** X22: once the base constructor has returned a context, the constructor
    of [SlashContext] returns too, provided no option of role type comes
    without a guild, [float] accepts the value of every option of type 10,
    and the values handed to the cache lookups, those of the options of
    types 6, 7 and 8, are hashable.  The slash context is built on the base
    context, which is fresh, deferred=false and responded=false, and carries
    the command name. *)
Theorem slash_construction_returns
    (pf : json → Exn + Z) (lib : Discord)
    (payload : InteractionPayload) (client : Client) (ctx : Context) :
  InteractionContext.__init__ lib payload client = inr ctx →
  (guild ctx = None →
   ∀ o, o ∈ data_options payload → option_type o ≠ 8) →
  (∀ o, o ∈ data_options payload → option_type o = 10 →
   ∃ bits, pf (option_value o) = inr bits) →
  (∀ o, o ∈ data_options payload → option_type o ∈ [6; 7; 8] →
   hashable (option_value o) = true) →
  ∃ sc, Slash.__init__ pf lib payload client = inr sc
        ∧ base sc = ctx
        ∧ deferred (base sc) = false
        ∧ responded (base sc) = false
        ∧ name sc = data_name payload.
Proof.
  intros Hbase Hrole Hfloat _.
  destruct (base_init_returns _ _ _ _ Hbase) as (_ & Hd & Hr & _).
  unfold Slash.__init__. rewrite Hbase.
  destruct (parse_options_total pf client (guild ctx)
              (data_options payload) (∅, None) Hrole Hfloat) as [[m mem] ->].
  eexists. by split_and!.
Qed.

Lemma slash_construction_returns_witness :
  ∃ sc, Slash.__init__ Sample.float_of Sample.discord
          (Sample.command [Sample.int_option "n" 1; Sample.user_option "who" 5])
          Sample.client = inr sc
        ∧ deferred (base sc) = false
        ∧ responded (base sc) = false.
Proof.
  destruct (slash_construction_returns Sample.float_of Sample.discord
              (Sample.command [Sample.int_option "n" 1; Sample.user_option "who" 5])
              Sample.client _ eq_refl) as (sc & Hsc & _ & Hd & Hr & _).
  - intros _ o Ho.
    apply elem_of_cons in Ho as [->|Ho]; [discriminate|].
    apply list_elem_of_singleton in Ho as ->. discriminate.
  - intros o Ho.
    apply elem_of_cons in Ho as [->|Ho]; [discriminate|].
    apply list_elem_of_singleton in Ho as ->. discriminate.
  - intros o Ho _.
    apply elem_of_cons in Ho as [->|Ho]; [reflexivity|].
    apply list_elem_of_singleton in Ho as ->. reflexivity.
  - exists sc. by split_and!.
Defined.

(** X23: without channel id in the payload the base constructor and the
    component constructor raise the [TypeError] of [int(None)], whatever
    else the payload holds.  A component context that is returned is built
    on the context the base constructor returned, so the payload had a
    channel id; it is fresh; it holds the selected values of the payload
    only for a component of type 3 and an empty list for any other type; and
    its message is the one built from the snapshot of the payload. *)
Theorem component_construction
    (lib : Discord) (message_init : json → Exn + Message)
    (payload : ComponentPayload) (client : Client) :
  (payload_channel_id (component_interaction payload) = None →
   InteractionContext.__init__ lib (component_interaction payload) client
     = inl TypeError
   ∧ Components.__init__ lib message_init payload client = inl TypeError)
  ∧ (∀ cc,
       Components.__init__ lib message_init payload client = inr cc →
       InteractionContext.__init__ lib (component_interaction payload) client
         = inr (Components.interaction cc)
       ∧ is_Some (payload_channel_id (component_interaction payload))
       ∧ deferred (Components.interaction cc) = false
       ∧ responded (Components.interaction cc) = false
       ∧ (data_component_type payload = Some 3 →
          Components.values cc = data_values payload)
       ∧ (data_component_type payload ≠ Some 3 →
          Components.values cc = JList [])
       ∧ message_init (match payload_message payload with
                       | Some m => m
                       | None => JDict []
                       end) = inr (Components.message cc)).
Proof.
  unfold Components.__init__. split.
  - intros Hno. unfold InteractionContext.__init__. by rewrite Hno.
  - intros cc.
    destruct (InteractionContext.__init__ lib (component_interaction payload) client)
      as [e|ctx] eqn:Hbase; [done|].
    destruct (base_init_returns _ _ _ _ Hbase) as (_ & Hd & Hr & Hch).
    destruct (message_init _) as [e|msg] eqn:Hmsg; [done|].
    intros [= <-]. simpl. split_and!; try done.
    + intros ->. done.
    + intros Hne. by rewrite bool_decide_eq_false_2.
Qed.

(** ** What the options hold, by declared type *)

Lemma insert_empty_inj (k : string) (v v' : OptionValue)
    (mem mem' : option Mentioned) :
  @inr Exn _ (<[k := v]> (∅ : gmap string OptionValue), mem)
  = inr (<[k := v']> ∅, mem') → v = v'.
Proof.
  intros Heq.
  apply (f_equal (λ r : Exn + (gmap string OptionValue * option Mentioned),
                    match r with
                    | inr (m, _) => m !! k
                    | inl _ => None
                    end)) in Heq.
  cbv beta iota in Heq. rewrite !lookup_insert_eq in Heq. congruence.
Qed.

(** X24: in a constructed slash context the slot of an option holds, by the
    declared type of the last occurrence that writes it: the raw value for
    types 3 and 4 (no coercion), the truth value of the value for type 5,
    the channel looked up in the guild for type 7, or the raw value when
    there is no guild, the role looked up in the guild for type 8, the
    result of [float] for type 10, and the raw value for any other type. *)
Theorem option_slot_by_type
    (pf : json → Exn + Z) (lib : Discord)
    (payload : InteractionPayload) (client : Client)
    (sc : SlashContext) (pre post : list RawOption) (o : RawOption) :
  let k := option_name o in
  let v := option_value o in
  let t := option_type o in
  Slash.__init__ pf lib payload client = inr sc →
  data_options payload = pre ++ o :: post →
  (∀ o', o' ∈ post → option_name o' = k → option_type o' = 6) →
  (t = 3 ∨ t = 4 → options sc !! k = Some (OValue v))
  ∧ (t = 5 → options sc !! k = Some (OValue (JBool (truthy v))))
  ∧ (t = 7 →
     options sc !! k
     = Some (match guild (base sc) with
             | Some g => OChannel (get_channel g v)
             | None => OValue v
             end))
  ∧ (t = 8 →
     ∃ g, guild (base sc) = Some g
          ∧ options sc !! k = Some (ORole (get_role g v)))
  ∧ (t = 10 →
     ∃ bits, pf v = inr bits ∧ options sc !! k = Some (OValue (JFloat bits)))
  ∧ (t ∉ [3; 4; 5; 6; 7; 8; 10] → options sc !! k = Some (OValue v)).
Proof.
  cbv zeta. unfold Slash.__init__.
  destruct (InteractionContext.__init__ lib payload client) as [e|ctx]; [done|].
  destruct (Slash.parse_options pf client (guild ctx) (data_options payload) (∅, None))
    as [e|[m mem]] eqn:Hparse; [done|].
  intros [= <-] Hopts Hskip. simpl. rewrite Hopts in Hparse.
  assert (Hlast : option_type o ≠ 6 →
            ∃ v0, m !! option_name o = Some v0
                  ∧ Slash.set_option pf client (guild ctx) o (∅, None)
                    = inr (<[option_name o := v0]> ∅, None)).
  { intros Hne.
    destruct (parse_options_last _ _ _ (option_name o) _ _ _ _ _ _ _
                Hparse eq_refl Hne Hskip) as (v0 & Hv0 & Hset).
    eauto. }
  unfold Slash.set_option in Hlast.
  split_and!.
  - intros [Ht|Ht]; rewrite Ht in Hlast; simpl in Hlast;
      destruct Hlast as (v0 & -> & Heq); [lia | | lia |];
      by rewrite (insert_empty_inj _ _ _ _ _ Heq).
  - intros Ht. rewrite Ht in Hlast. simpl in Hlast.
    destruct Hlast as (v0 & -> & Heq); [lia|].
    by rewrite (insert_empty_inj _ _ _ _ _ Heq).
  - intros Ht. rewrite Ht in Hlast. simpl in Hlast.
    destruct Hlast as (v0 & -> & Heq); [lia|].
    destruct (guild ctx); simpl in Heq;
      by rewrite (insert_empty_inj _ _ _ _ _ Heq).
  - intros Ht. rewrite Ht in Hlast. simpl in Hlast.
    destruct Hlast as (v0 & -> & Heq); [lia|].
    destruct (guild ctx) as [g|]; [|done].
    exists g. by rewrite (insert_empty_inj _ _ _ _ _ Heq).
  - intros Ht. rewrite Ht in Hlast. simpl in Hlast.
    destruct Hlast as (v0 & -> & Heq); [lia|].
    destruct (pf (option_value o)) as [e|bits]; [done|].
    exists bits. by rewrite (insert_empty_inj _ _ _ _ _ Heq).
  - intros Ht.
    rewrite !not_elem_of_cons in Ht.
    destruct Ht as (H3 & H4 & H5 & H6 & H7 & H8 & H10 & _).
    destruct Hlast as (v0 & -> & Heq); [done|].
    apply Z.eqb_neq in H3, H4, H5, H6, H7, H8, H10.
    rewrite H3, H4, H5, H6, H7, H8, H10 in Heq. simpl in Heq.
    by rewrite (insert_empty_inj _ _ _ _ _ Heq).
Qed.

Lemma option_slot_by_type_witness :
  option_slot
    (Slash.__init__ Sample.float_of Sample.discord
       (Sample.command [Sample.int_option "n" 42]) Sample.client) "n"
  = Some (OValue (JInt 42)).
Proof.
  destruct (Slash.__init__ Sample.float_of Sample.discord
              (Sample.command [Sample.int_option "n" 42]) Sample.client)
    as [e|sc] eqn:Hinit; [discriminate Hinit|].
  refine (proj1 (option_slot_by_type Sample.float_of Sample.discord
                   (Sample.command [Sample.int_option "n" 42]) Sample.client sc
                   [] [] (Sample.int_option "n" 42) Hinit eq_refl _)
            (or_intror eq_refl)).
  intros o' Ho'. by apply elem_of_nil in Ho'.
Defined.

(** ** The member attribute *)

Lemma set_option_user (pf : json → Exn + Z) (cl : Client) (g : option Guild)
    (o : RawOption) (m : gmap string OptionValue) (mem : option Mentioned) :
  option_type o = 6 →
  Slash.set_option pf cl g o (m, mem)
  = inr (m, Some (match g with
                  | Some gd => MentionedMember (get_member gd (option_value o))
                  | None => MentionedUser (get_user cl (option_value o))
                  end)).
Proof. intros H6. unfold Slash.set_option. rewrite H6. simpl. by destruct g. Qed.

Lemma parse_options_member_frame (pf : json → Exn + Z) (cl : Client)
    (g : option Guild) (opts : list RawOption)
    (m m' : gmap string OptionValue) (mem mem' : option Mentioned) :
  Slash.parse_options pf cl g opts (m, mem) = inr (m', mem') →
  (∀ o, o ∈ opts → option_type o ≠ 6) →
  mem' = mem.
Proof.
  revert m mem.
  induction opts as [|o opts IH]; intros m mem; cbn [Slash.parse_options].
  - by intros [= <- <-].
  - destruct (Slash.set_option pf cl g o (m, mem)) as [e|[m1 mem1]] eqn:Hs;
      [done|].
    intros Hrest Hno.
    rewrite (IH m1 mem1 Hrest) by (intros o' Ho'; apply Hno; by right).
    destruct (set_option_cases _ _ _ _ _ _ _ _ Hs) as [[H6 _]|(_ & -> & _)];
      [|done].
    exfalso. eapply Hno; [by left | done].
Qed.

(** X25: the [member] attribute of a slash context is set by the options of
    user type (6) alone and by nothing else: without such an option it is
    never set, and otherwise it holds what the last of them resolves to, the
    guild's member for its value inside a guild, the client's user for its
    value outside. *)
Theorem member_attribute
    (pf : json → Exn + Z) (lib : Discord)
    (payload : InteractionPayload) (client : Client)
    (sc : SlashContext) :
  Slash.__init__ pf lib payload client = inr sc →
  ((∀ o, o ∈ data_options payload → option_type o ≠ 6) → member sc = None)
  ∧ (∀ pre o post,
       data_options payload = pre ++ o :: post →
       option_type o = 6 →
       (∀ o', o' ∈ post → option_type o' ≠ 6) →
       member sc
       = Some (match guild (base sc) with
               | Some g => MentionedMember (get_member g (option_value o))
               | None => MentionedUser (get_user client (option_value o))
               end)).
Proof.
  unfold Slash.__init__.
  destruct (InteractionContext.__init__ lib payload client) as [e|ctx]; [done|].
  destruct (Slash.parse_options pf client (guild ctx) (data_options payload) (∅, None))
    as [e|[m mem]] eqn:Hparse; [done|].
  intros [= <-]. simpl. split.
  - intros Hno. by eapply parse_options_member_frame.
  - intros pre o post Hopts H6 Hno. rewrite Hopts in Hparse.
    rewrite parse_options_app in Hparse.
    destruct (Slash.parse_options pf client (guild ctx) pre (∅, None))
      as [e|[m1 mem1]]; [done|].
    cbn [Slash.parse_options] in Hparse.
    rewrite (set_option_user _ _ _ _ _ _ H6) in Hparse.
    by eapply parse_options_member_frame.
Qed.

Lemma member_attribute_witness :
  ∃ sc, Slash.__init__ Sample.float_of Sample.discord
          (Sample.command [Sample.int_option "n" 1]) Sample.client = inr sc
        ∧ member sc = None.
Proof.
  eexists. split; [reflexivity|].
  refine (proj1 (member_attribute Sample.float_of Sample.discord
                   (Sample.command [Sample.int_option "n" 1]) Sample.client _
                   eq_refl) _).
  intros o ->%list_elem_of_singleton. discriminate.
Defined.
